(** * JewelSnap: key-frame extraction pipeline

    A shallow embedding of [services/videoProcessor.ts] (sharpness score,
    video fingerprint, the [processVideo] orchestrator) and of the labelling
    service [analyzeFrames], together with the properties stated about them.
    The handlers of [App.tsx] that keep the list of batches, run the
    orchestrator over the queued batches and pack the archive are embedded
    as well, in the module [App].

    Conventions of the embedding.
    - A JavaScript number is a [number]: an exact rational, or one of the
      three IEEE specials.  Rounding (binary64, and binary32 inside a
      [Float32Array]) and the sign of zero are not represented; the values
      [NaN] and the infinities are, because division by a zero count
      produces them.  The progress percentage is also evaluated in binary64
      and shown to be the same integer.
    - Durations and playback positions are rationals; a duration that is
      not a number, or infinite, is not considered.
    - A typed array is a [list]; a write out of range is dropped and a read
      out of range yields [undefined], which arithmetic turns into [NaN].
    - A counted [for] loop is a [fold_left] of its body over the range of
      its index. *)

From Stdlib Require Import ZArith QArith Qround List Lia Lqa Bool.
From Stdlib Require Import String Ascii.
From Stdlib Require Import Floats.SpecFloat.
From Stdlib Require Import Sorting.Permutation Sorting.Sorted.
From stdpp Require Import base list strings pretty.
Import ListNotations.

Local Open Scope nat_scope.

(** ** JavaScript numbers *)

Module JS.

Inductive number : Type :=
  | Num (q : Q)
  | PosInf
  | NegInf
  | NaN.

Definition of_nat (n : nat) : number := Num (inject_Z (Z.of_nat n)).
Definition of_Z (z : Z) : number := Num (inject_Z z).

Definition neg (a : number) : number :=
  match a with
  | Num q => Num (- q)
  | PosInf => NegInf
  | NegInf => PosInf
  | NaN => NaN
  end.

Definition add (a b : number) : number :=
  match a, b with
  | NaN, _ | _, NaN => NaN
  | Num x, Num y => Num (x + y)
  | PosInf, NegInf | NegInf, PosInf => NaN
  | PosInf, _ | _, PosInf => PosInf
  | NegInf, _ | _, NegInf => NegInf
  end.

Definition sub (a b : number) : number := add a (neg b).

(** Sign of a number: [Eq] for zero and for [NaN]. *)
Definition sign (a : number) : comparison :=
  match a with
  | Num q => Qcompare q 0
  | PosInf => Gt
  | NegInf => Lt
  | NaN => Eq
  end.

Definition signed_inf (s : comparison) : number :=
  match s with Gt => PosInf | Lt => NegInf | Eq => NaN end.

Definition sign_mul (s t : comparison) : comparison :=
  match s, t with
  | Eq, _ | _, Eq => Eq
  | Gt, Gt | Lt, Lt => Gt
  | _, _ => Lt
  end.

Definition mul (a b : number) : number :=
  match a, b with
  | NaN, _ | _, NaN => NaN
  | Num x, Num y => Num (x * y)
  | _, _ => signed_inf (sign_mul (sign a) (sign b))
  end.

Definition div (a b : number) : number :=
  match a, b with
  | NaN, _ | _, NaN => NaN
  | Num x, Num y =>
      if Qeq_bool y 0 then signed_inf (sign a) else Num (x / y)
  | Num _, _ => Num 0
  | _, Num y =>
      signed_inf (sign_mul (sign a) (if Qeq_bool y 0 then Gt else sign b))
  | _, _ => NaN
  end.

(** [Math.pow(x, 2)]. *)
Definition pow2 (a : number) : number := mul a a.

(** [a !== 0] on numbers. *)
Definition nonzero (a : number) : bool :=
  match a with
  | Num q => negb (Qeq_bool q 0)
  | _ => true
  end.

End JS.

Import JS.

(** ** Sharpness score: [calculateLaplacianVariance] *)

Module Sharpness.

(** [ImageData]: RGBA bytes, row-major, four per pixel. *)
Record ImageData : Type := {
  data : list Z;
  width : nat;
  height : nat
}.

(** What [getImageData] guarantees: four bytes for every pixel. *)
Definition well_formed (img : ImageData) : Prop :=
  length (data img) = 4 * (width img * height img).

(** [data[i]] used as a number. *)
Definition byte_at (d : list Z) (i : nat) : number :=
  match d !! i with
  | Some v => of_Z v
  | None => NaN
  end.

(** [a[i]] on a [Float32Array]. *)
Definition rd (a : list number) (i : nat) : number :=
  match a !! i with
  | Some v => v
  | None => NaN
  end.

Definition c299 : number := Num (299 # 1000).
Definition c587 : number := Num (587 # 1000).
Definition c114 : number := Num (114 # 1000).

(** The luminance stored by the grey-scale loop for the pixel that starts
    at byte [i]. *)
Definition gray_value (d : list Z) (i : nat) : number :=
  add (add (mul c299 (byte_at d i)) (mul c587 (byte_at d (i + 1))))
      (mul c114 (byte_at d (i + 2))).

(** Body of the grey-scale loop at [i = 4 * k], writing [grayscale[i / 4]]. *)
Definition gray_step (d : list Z) (g : list number) (k : nat) : list number :=
  <[ k := gray_value d (4 * k) ]> g.

(** [for (let i = 0; i < data.length; i += 4)]: one iteration for every [k]
    with [4 * k < data.length]. *)
Definition grayscale_of (img : ImageData) : list number :=
  fold_left (gray_step (data img))
            (seq 0 ((length (data img) + 3) / 4))
            (replicate (width img * height img) (Num 0)).

Record LapState : Type := {
  laplacian : list number;
  sum : number;
  count : nat
}.

(** The value [val] of the inner loop at flat index [idx]. *)
Definition laplacian_value (g : list number) (w idx : nat) : number :=
  add (add (add (add (mul (Num (-4 # 1)) (rd g idx))
                     (rd g (idx - 1)))
                (rd g (idx + 1)))
           (rd g (idx - w)))
      (rd g (idx + w)).

(** Body of the inner loop.  The indices [idx - 1] and [idx - width] are
    never negative there, since [x >= 1] and [y >= 1]. *)
Definition lap_cell (g : list number) (w y : nat) (st : LapState) (x : nat)
  : LapState :=
  let idx := y * w + x in
  let val := laplacian_value g w idx in
  {| laplacian := <[ idx := val ]> (laplacian st);
     sum := add (sum st) val;
     count := S (count st) |}.

(** [for (let x = 1; x < width - 1; x++)]. *)
Definition lap_row (g : list number) (w : nat) (st : LapState) (y : nat)
  : LapState :=
  fold_left (lap_cell g w y) (seq 1 (w - 2)) st.

(** [for (let y = 1; y < height - 1; y++)]. *)
Definition lap_loops (g : list number) (w h : nat) : LapState :=
  fold_left (lap_row g w) (seq 1 (h - 2))
            {| laplacian := replicate (w * h) (Num 0);
               sum := Num 0;
               count := 0 |}.

(** Body of the variance loop. *)
Definition var_step (lap : list number) (mean : number) (vs : number)
  (i : nat) : number :=
  if nonzero (rd lap i)
  then add vs (pow2 (sub (rd lap i) mean))
  else vs.

(** The same step, on the value read from the array. *)
Definition var_acc (mean vs v : number) : number :=
  if nonzero v then add vs (pow2 (sub v mean)) else vs.

Definition calculateLaplacianVariance (img : ImageData) : number :=
  let g := grayscale_of img in
  let st := lap_loops g (width img) (height img) in
  let mean := div (sum st) (of_nat (count st)) in
  let varianceSum :=
    fold_left (var_step (laplacian st) mean)
              (seq 0 (length (laplacian st))) (Num 0) in
  div varianceSum (of_nat (count st)).

(** *** Reference definition (after the description of the score) *)

(** Channel [c] of the pixel at column [x], row [y]. *)
Definition channel (img : ImageData) (x y c : nat) : Q :=
  match data img !! (4 * (y * width img + x) + c) with
  | Some v => inject_Z v
  | None => 0
  end.

Definition luminance (img : ImageData) (x y : nat) : Q :=
  ((299 # 1000) * channel img x y 0 + (587 # 1000) * channel img x y 1
   + (114 # 1000) * channel img x y 2)%Q.

Definition laplacian_at (img : ImageData) (p : nat * nat) : Q :=
  let '(x, y) := p in
  ((-4 # 1) * luminance img x y
   + luminance img (x - 1) y + luminance img (x + 1) y
   + luminance img x (y - 1) + luminance img x (y + 1))%Q.

(** Interior pixels, as (column, row), without the one-pixel border. *)
Definition interior (img : ImageData) : list (nat * nat) :=
  flat_map (fun y => map (fun x => (x, y)) (seq 1 (width img - 2)))
           (seq 1 (height img - 2)).

(** Row-major positions of the interior pixels in a [width * height]
    array. *)
Definition interior_indices (w h : nat) : list nat :=
  flat_map (fun y => map (fun x => y * w + x) (seq 1 (w - 2)))
           (seq 1 (h - 2)).

Definition interiorPixelCount (img : ImageData) : nat :=
  length (interior img).

Definition Qsum (l : list Q) : Q := fold_left Qplus l 0%Q.

Definition laplacian_mean (img : ImageData) : Q :=
  (Qsum (map (laplacian_at img) (interior img))
   / inject_Z (Z.of_nat (interiorPixelCount img)))%Q.

Definition sharpness_reference (img : ImageData) : Q :=
  let m := laplacian_mean img in
  (Qsum (map (fun l => (l - m) ^ 2)
             (List.filter (fun l => negb (Qeq_bool l 0))
                     (map (laplacian_at img) (interior img))))
   / inject_Z (Z.of_nat (interiorPixelCount img)))%Q.

(** *** Sample frames *)

(** An opaque grey frame from one grey level per pixel. *)
Definition gray_frame (w h : nat) (levels : list Z) : ImageData :=
  {| data := concat (map (fun v => [v; v; v; 255%Z]) levels);
     width := w;
     height := h |}.

Definition frame_1x1 : ImageData := gray_frame 1 1 [128%Z].

Definition frame_2x2 : ImageData := gray_frame 2 2 [10; 200; 30; 90]%Z.

Definition frame_4x4 : ImageData :=
  gray_frame 4 4 [ 12;  12;  12;  12;
                   12; 200;  12;  12;
                   12;  12;  12;  12;
                   12;  12;  12;  90 ]%Z.

(** A frame with every opacity byte replaced by [a]. *)
Definition with_alpha (a : Z) (img : ImageData) : ImageData :=
  {| data := imap (fun i v => if i mod 4 =? 3 then a else v) (data img);
     width := width img;
     height := height img |}.

Definition flat_4x4 : ImageData := gray_frame 4 4 (replicate 16 77%Z).

End Sharpness.

(** ** Video fingerprint: [generateVideoId] *)

Module Fingerprint.

(** The fields of a [File] that the fingerprint reads.  The name is a
    JavaScript string, kept as its UTF-16 code units; size and modification
    time are integers, rendered in decimal by string concatenation. *)
Record File : Type := {
  name : list Z;
  size : Z;
  lastModified : Z
}.

Definition code_units (s : string) : list Z :=
  map (fun c => Z.of_nat (nat_of_ascii c)) (list_ascii_of_string s).

(** [x | 0]: wrap to a signed 32-bit integer. *)
Definition to_int32 (x : Z) : Z :=
  ((x + 2 ^ 31) mod 2 ^ 32 - 2 ^ 31)%Z.

(** [file.name + file.size + file.lastModified]. *)
Definition id_string (f : File) : list Z :=
  name f ++ code_units (pretty (size f)) ++ code_units (pretty (lastModified f)).

(** Loop body: [hash = (hash << 5) - hash + str.charCodeAt(i); hash |= 0]. *)
Definition hash_step (hash c : Z) : Z :=
  to_int32 (to_int32 (Z.shiftl hash 5) - hash + c)%Z.

Definition hash_of (str : list Z) : Z := fold_left hash_step str 0%Z.

(** The polynomial [c0 * 31^(n-1) + ... + c(n-1)] of the code units,
    without wrap-around. *)
Definition poly31 (str : list Z) : Z :=
  fold_left (fun h c => (31 * h + c)%Z) str 0%Z.

Definition hex_digit (d : Z) : ascii :=
  if (d <? 10)%Z
  then ascii_of_nat (48 + Z.to_nat d)
  else ascii_of_nat (87 + Z.to_nat d).

Fixpoint hex_go (fuel : nat) (n : Z) (acc : string) : string :=
  match fuel with
  | O => acc
  | S fuel' =>
      if (n <? 16)%Z
      then String (hex_digit n) acc
      else hex_go fuel' (n / 16)%Z (String (hex_digit (n mod 16)%Z) acc)
  end.

(** [n.toString(16)] for an integer [n >= 0]: lower-case digits, most
    significant first, no leading zero, ["0"] for zero. *)
Definition toString16 (n : Z) : string :=
  hex_go (S (Z.to_nat (Z.log2 n))) n EmptyString.

(** The number that a string of lower-case hexadecimal digits denotes. *)
Definition hex_digit_value (c : ascii) : Z :=
  let n := Z.of_nat (nat_of_ascii c) in
  if (n <? 58)%Z then (n - 48)%Z else (n - 87)%Z.

Fixpoint hex_value (s : string) : Z :=
  match s with
  | EmptyString => 0%Z
  | String c s' =>
      (hex_digit_value c * 16 ^ Z.of_nat (String.length s') + hex_value s')%Z
  end.

Definition upper_char (c : ascii) : ascii :=
  let n := nat_of_ascii c in
  if (97 <=? n)%nat && (n <=? 122)%nat then ascii_of_nat (n - 32) else c.

Fixpoint toUpperCase (s : string) : string :=
  match s with
  | EmptyString => EmptyString
  | String c s' => String (upper_char c) (toUpperCase s')
  end.

Definition generateVideoId (f : File) : string :=
  toUpperCase (substring 0 4 (toString16 (Z.abs (hash_of (id_string f))))).



Fixpoint all_chars (p : ascii -> bool) (s : string) : bool :=
  match s with
  | EmptyString => true
  | String c s' => p c && all_chars p s'
  end.

Definition sample_file : File :=
  {| name := code_units "a.mov";
     size := 123456;
     lastModified := 1700000000000 |}.


End Fingerprint.

(** ** The orchestrator: [processVideo] *)

Module Pipeline.

Import Sharpness Fingerprint.

Record Keyframe : Type := {
  id : string;
  dataUrl : string;
  processedUrl : option string;
  timestamp : Q;
  score : number;
  label : option string;
  aiDescription : option string;
  partId : nat;
  rankId : nat
}.

Record ProcessingMetadata : Type := {
  videoId : string;
  sessionTime : string
}.

(** *** The environment of a run *)

(** Wall clock read by [new Date()]. *)
Record Clock : Type := {
  hours : nat;
  minutes : nat;
  seconds : nat
}.

(** Which of the two handlers of the video element fires.  An error of the
    element after its metadata have loaded is not represented. *)
Inductive MediaEvent : Type :=
  | LoadedMetadata (duration : Q) (videoWidth videoHeight : nat)
  | MediaError.

(** The video element as the run observes it: the event it raises, whether
    a seek to a time is followed by [seeked], the bytes that
    [drawImage]/[getImageData] yield on the analysis canvas at a playback
    position, and the JPEG data URL of the capture canvas at a position. *)
Record Video : Type := {
  event : MediaEvent;
  seeked : Q -> bool;
  pixel : Q -> nat -> Z;
  jpeg : Q -> string
}.

(** Whether [getContext('2d', ...)] returns a context for each canvas. *)
Record Canvases : Type := {
  captureCtx : bool;
  analysisCtx : bool
}.

(** *** State of a run and sequencing *)

(** What a run changes outside its result: the values handed to
    [onProgress], in order; whether the object URL made by
    [URL.createObjectURL] is still alive; the playback position. *)
Record Run : Type := {
  reported : list Z;
  objectUrlLive : bool;
  currentTime : Q
}.

(** A step of the asynchronous callback.  [None] means that the step never
    hands control back: an awaited promise that is never resolved, or an
    exception thrown inside the callback, which leaves the promise of
    [processVideo] unsettled. *)
Definition Task (A : Type) : Type := Run -> option A * Run.

Definition ret {A} (a : A) : Task A := fun r => (Some a, r).

Definition bind {A B} (m : Task A) (k : A -> Task B) : Task B :=
  fun r =>
    match m r with
    | (Some a, r') => k a r'
    | (None, r') => (None, r')
    end.

Declare Scope task_scope.
Delimit Scope task_scope with task.
Notation "x <- m ;; k" := (bind m (fun x => k))
  (at level 100, m at next level, k at level 200) : task_scope.
Notation "m ;; k" := (bind m (fun _ => k))
  (at level 100, k at level 200) : task_scope.
Local Open Scope task_scope.

(** A [for] loop whose body may never return. *)
Fixpoint forM {A I} (body : A -> I -> Task A) (l : list I) (a : A) : Task A :=
  match l with
  | [] => ret a
  | i :: l' => a' <- body a i ;; forM body l' a'
  end.

Definition onProgress (percent : Z) : Task unit :=
  fun r => (Some tt, {| reported := reported r ++ [percent];
                        objectUrlLive := objectUrlLive r;
                        currentTime := currentTime r |}).

(** [video.currentTime = time] followed by awaiting [seeked]. *)
Definition seek (v : Video) (time : Q) : Task unit :=
  fun r =>
    let r' := {| reported := reported r;
                 objectUrlLive := objectUrlLive r;
                 currentTime := time |} in
    if seeked v time then (Some tt, r') else (None, r').

(** The frame at position [t] as the analysis canvas of size [w] by [h]
    holds it. *)
Definition analysis_frame (v : Video) (w h : nat) (t : Q) : ImageData :=
  {| data := map (pixel v t) (seq 0 (4 * (w * h)));
     width := w;
     height := h |}.

(** [drawImage] on the analysis canvas, then [getImageData(0, 0, w, h)],
    which throws for an empty rectangle. *)
Definition getImageData (v : Video) (w h : nat) : Task ImageData :=
  fun r =>
    if (w =? 0) || (h =? 0) then (None, r)
    else (Some (analysis_frame v w h (currentTime r)), r).

(** [drawImage] on the capture canvas, then [toDataURL]. *)
Definition toDataURL (v : Video) : Task string :=
  fun r => (Some (jpeg v (currentTime r)), r).

Definition revokeObjectURL (r : Run) : Run :=
  {| reported := reported r;
     objectUrlLive := false;
     currentTime := currentTime r |}.

(** *** Numbers used by the orchestrator *)

Definition lt (a b : number) : bool :=
  match a, b with
  | NaN, _ | _, NaN => false
  | Num x, Num y => negb (Qle_bool y x)
  | NegInf, NegInf | PosInf, _ => false
  | NegInf, _ | _, PosInf => true
  | _, NegInf => false
  end.

(** [Math.min(a, b)]. *)
Definition min (a b : number) : number :=
  match a, b with
  | NaN, _ | _, NaN => NaN
  | _, _ => if lt b a then b else a
  end.

(** [Math.floor] of a number that is finite wherever the run uses it. *)
Definition floor (a : number) : Z :=
  match a with
  | Num q => Qfloor q
  | _ => 0%Z
  end.

(** Assignment of a number to [canvas.width]: truncated to an unsigned
    integer, zero for the specials. *)
Definition to_unsigned (a : number) : nat :=
  match a with
  | Num q => Z.to_nat (Qfloor q)
  | _ => 0
  end.

(** [n.toString().padStart(2, '0')]. *)
Definition pad2 (n : nat) : string :=
  let s := pretty n in
  if String.length s <? 2 then String.append "0" s else s.

(** *** Stable sort by a comparator

    [Array.prototype.sort] is stable, and the comparator value decides by
    its sign, [NaN] counting as zero.  For a comparator that is a weak order
    on the elements the result is determined; it is computed here by
    insertion, the elements entering from the last to the first. *)
Section Sort.
Context {A : Type} (compareFn : A -> A -> number).

Fixpoint insert (x : A) (l : list A) : list A :=
  match l with
  | [] => [x]
  | y :: l' =>
      match sign (compareFn y x) with
      | Lt => y :: insert x l'
      | _ => x :: l
      end
  end.

Fixpoint sort (l : list A) : list A :=
  match l with
  | [] => []
  | x :: l' => insert x (sort l')
  end.
End Sort.


(** *** The two phases of a segment *)

Record Sample : Type := {
  time : Q;
  sampleScore : number
}.

Definition segments : nat := 5.
Definition samplesPerSegment : nat := 24.

Definition sample_time (segmentDuration : Q) (s i : nat) : Q :=
  (inject_Z (Z.of_nat s) * segmentDuration
   + inject_Z (Z.of_nat i)
     * (segmentDuration / inject_Z (Z.of_nat samplesPerSegment)))%Q.

Definition progress_at (s i : nat) : Z :=
  let totalSamples := segments * samplesPerSegment in
  let currentSample := s * samplesPerSegment + i in
  floor (mul (div (of_nat currentSample) (of_nat totalSamples)) (Num 80)).

(** The same value with the two operations rounded as binary64 numbers
    (53 bits of precision, exponents up to 1024). *)
Definition binary64_of_nat (n : nat) : spec_float :=
  binary_normalize 53 1024 (Z.of_nat n) 0 false.

Definition floor_binary64 (x : spec_float) : Z :=
  match x with
  | S754_finite s m e =>
      let z := if s then Z.neg m else Z.pos m in
      if (0 <=? e)%Z then (z * 2 ^ e)%Z else (z / 2 ^ (- e))%Z
  | _ => 0%Z
  end.

Definition progress_binary64 (s i : nat) : Z :=
  let totalSamples := segments * samplesPerSegment in
  let currentSample := s * samplesPerSegment + i in
  floor_binary64
    (SFmul 53 1024
       (SFdiv 53 1024 (binary64_of_nat currentSample)
                      (binary64_of_nat totalSamples))
       (binary64_of_nat 80)).

(** Body of the scoring loop. *)
Definition score_sample (v : Video) (w h : nat) (segmentDuration : Q)
  (s : nat) (segmentScores : list Sample) (i : nat) : Task (list Sample) :=
  onProgress (progress_at s i) ;;
  let time := sample_time segmentDuration s i in
  seek v time ;;
  imageData <- getImageData v w h ;;
  let score := calculateLaplacianVariance imageData in
  ret (segmentScores ++ [{| time := time; sampleScore := score |}]).

(** [(a, b) => b.score - a.score]. *)
Definition by_score (a b : Sample) : number :=
  sub (sampleScore b) (sampleScore a).

(** [segmentScores.sort(...).slice(0, 3)]. *)
Definition top3 (segmentScores : list Sample) : list Sample :=
  take 3 (sort by_score segmentScores).

(** The record pushed on [finalResults]. *)
Definition make_keyframe (s j : nat) (smp : Sample) (url : string) : Keyframe :=
  {| id := String.append "p" (String.append (pretty (s + 1))
             (String.append "_r" (pretty (j + 1))));
     dataUrl := url;
     processedUrl := None;
     timestamp := time smp;
     score := sampleScore smp;
     label := None;
     aiDescription := None;
     partId := s + 1;
     rankId := j + 1 |}.

(** Body of the capture loop; [top3Times[j]] is destructured, which throws
    when the entry is missing. *)
Definition capture_frame (v : Video) (s : nat) (top3Times : list Sample)
  (finalResults : list Keyframe) (j : nat) : Task (list Keyframe) :=
  match top3Times !! j with
  | None => fun r => (None, r)
  | Some smp =>
      seek v (time smp) ;;
      url <- toDataURL v ;;
      ret (finalResults ++ [make_keyframe s j smp url])
  end.

(** Body of the loop over the segments. *)
Definition process_segment (v : Video) (w h : nat) (segmentDuration : Q)
  (finalResults : list Keyframe) (s : nat) : Task (list Keyframe) :=
  segmentScores <-
    forM (score_sample v w h segmentDuration s) (seq 0 samplesPerSegment) [] ;;
  let top3Times := top3 segmentScores in
  forM (capture_frame v s top3Times) (seq 0 (length top3Times)) finalResults.

(** *** [processVideo] *)

Inductive Settled : Type :=
  | Resolved (frames : list Keyframe) (metadata : ProcessingMetadata)
  | Rejected (reason : string)
  | Pending.

Definition analysis_size (videoWidth videoHeight : nat) : nat * nat :=
  let analysisScale :=
    min (Num 1) (div (Num 640) (of_nat (Nat.max videoWidth videoHeight))) in
  (to_unsigned (mul (of_nat videoWidth) analysisScale),
   to_unsigned (mul (of_nat videoHeight) analysisScale)).

Definition processVideo (videoFile : File) (now : Clock) (dom : Canvases)
  (v : Video) : Settled * Run :=
  let videoId := generateVideoId videoFile in
  let sessionTime :=
    String.append (pad2 (hours now))
      (String.append (pad2 (minutes now)) (pad2 (seconds now))) in
  let r0 := {| reported := []; objectUrlLive := true; currentTime := 0 |} in
  match event v with
  | MediaError => (Rejected "Video processing error", revokeObjectURL r0)
  | LoadedMetadata duration videoWidth videoHeight =>
      let '(w, h) := analysis_size videoWidth videoHeight in
      if negb (captureCtx dom) || negb (analysisCtx dom)
      then (Rejected "Canvas context unavailable", r0)
      else
        let segmentDuration := (duration / inject_Z (Z.of_nat segments))%Q in
        match forM (process_segment v w h segmentDuration)
                   (seq 0 segments) [] r0 with
        | (None, r) => (Pending, r)
        | (Some finalResults, r) =>
            match onProgress 100 r with
            | (_, r') =>
                (Resolved finalResults
                   {| videoId := videoId; sessionTime := sessionTime |},
                 revokeObjectURL r')
            end
        end
  end.

(** *** What a run computes, segment by segment *)

(** The sample that iteration [i] of segment [s] pushes. *)
Definition sample_at (v : Video) (w h : nat) (segmentDuration : Q)
  (s i : nat) : Sample :=
  let t := sample_time segmentDuration s i in
  {| time := t;
     sampleScore := calculateLaplacianVariance (analysis_frame v w h t) |}.

Definition segment_samples (v : Video) (w h : nat) (segmentDuration : Q)
  (s : nat) : list Sample :=
  map (sample_at v w h segmentDuration s) (seq 0 samplesPerSegment).

Definition segment_keyframes (v : Video) (w h : nat) (segmentDuration : Q)
  (s : nat) : list Keyframe :=
  imap (fun j smp => make_keyframe s j smp (jpeg v (time smp)))
       (top3 (segment_samples v w h segmentDuration s)).

(** Iteration [i] of the scoring loop of segment [s] runs to its end. *)
Definition scoring_completes (v : Video) (w h : nat) (segmentDuration : Q)
  (s i : nat) : bool :=
  seeked v (sample_time segmentDuration s i) && negb ((w =? 0) || (h =? 0)).

(** Iteration [j] of the capture loop runs to its end. *)
Definition capture_completes (v : Video) (top3Times : list Sample)
  (j : nat) : bool :=
  match top3Times !! j with
  | Some smp => seeked v (time smp)
  | None => false
  end.

Definition segment_completes (v : Video) (w h : nat) (segmentDuration : Q)
  (s : nat) : bool :=
  forallb (scoring_completes v w h segmentDuration s) (seq 0 samplesPerSegment)
  && let top3Times := top3 (segment_samples v w h segmentDuration s) in
     forallb (capture_completes v top3Times) (seq 0 (length top3Times)).



Definition metadata_of (file : File) (now : Clock) : ProcessingMetadata :=
  {| videoId := generateVideoId file;
     sessionTime :=
       String.append (pad2 (hours now))
         (String.append (pad2 (minutes now)) (pad2 (seconds now))) |}.

(** The keyframes of a run in which every segment completes. *)
Definition all_keyframes (v : Video) (w h : nat) (segmentDuration : Q)
  : list Keyframe :=
  flat_map (segment_keyframes v w h segmentDuration) (seq 0 segments).

(** The values that the scoring loops hand to [onProgress], in order. *)
Definition scoring_reports : list Z :=
  flat_map (fun s => map (progress_at s) (seq 0 samplesPerSegment))
           (seq 0 segments).





(** *** Sample runs *)

Definition nine_oh_five : Clock := {| hours := 9; minutes := 5; seconds := 30 |}.

Definition both_contexts : Canvases :=
  {| captureCtx := true; analysisCtx := true |}.

Definition no_analysis_context : Canvases :=
  {| captureCtx := true; analysisCtx := false |}.

(** A 4x4 video of [d] seconds whose frames change with the position. *)
Definition tiny_video (d : Q) : Video :=
  {| event := LoadedMetadata d 4 4;
     seeked := fun _ => true;
     pixel := fun t i => ((Qfloor (t * 24) + 3) * Z.of_nat i * 37 mod 256)%Z;
     jpeg := fun t => String.append "data:image/jpeg;base64," (pretty (Qfloor (t * 12))) |}.

(** A 3x3 video of 10 seconds that shows the same frame at every
    position; with a single interior pixel every score is zero. *)
Definition still_video : Video :=
  {| event := LoadedMetadata 10 3 3;
     seeked := fun _ => true;
     pixel := fun _ i => (Z.of_nat i * 37 mod 256)%Z;
     jpeg := fun _ => "data:image/jpeg;base64,AAAA" |}.

(** Identifier, segment, rank and reduced time of the keyframes of a
    resolved run, with the metadata. *)
Definition summary (o : Settled)
  : option (list (string * nat * nat * Q) * ProcessingMetadata) :=
  match o with
  | Resolved frames md =>
      Some (map (fun k => (id k, partId k, rankId k, Qred (timestamp k))) frames,
            md)
  | _ => None
  end.

(** A sample from an integer time and an integer score. *)
Definition sample_of (t s : Z) : Sample :=
  {| time := inject_Z t; sampleScore := of_Z s |}.

(** A file without a picture: the metadata load with a size of 0 by 0. *)
Definition audio_only : Video :=
  {| event := LoadedMetadata 10 0 0;
     seeked := fun _ => true;
     pixel := fun _ _ => 0%Z;
     jpeg := fun _ => "data:," |}.

(** A video whose seeks are never answered. *)
Definition frozen_video : Video :=
  {| event := LoadedMetadata 10 4 4;
     seeked := fun _ => false;
     pixel := fun _ _ => 0%Z;
     jpeg := fun _ => EmptyString |}.

Definition is_digit (c : ascii) : bool :=
  let n := nat_of_ascii c in (48 <=? n) && (n <=? 57).

(** Hours, minutes and seconds as [Date] returns them. *)
Definition valid_clock (now : Clock) : Prop :=
  hours now < 24 /\ minutes now < 60 /\ seconds now < 60.

Definition broken_video : Video :=
  {| event := MediaError;
     seeked := fun _ => true;
     pixel := fun _ _ => 0%Z;
     jpeg := fun _ => EmptyString |}.

End Pipeline.

(** ** The labelling service: [analyzeFrames] *)

Module Labeling.

Import Pipeline.

(** Outcome of the request for one frame: an exception (the request, or
    [JSON.parse] of its text), or the parsed object with its two optional
    fields. *)
Inductive Reply : Type :=
  | Throws
  | Parsed (label description : option string).

(** [field || fallback]: the empty string and [undefined] are falsy. *)
Definition or_else (field : option string) (fallback : string) : string :=
  match field with
  | Some EmptyString | None => fallback
  | Some s => s
  end.

Definition frame_label (index : nat) : string :=
  String.append "Frame " (pretty (index + 1)).

Definition analyzeFrame (service : nat -> Keyframe -> Reply) (index : nat)
  (frame : Keyframe) : Keyframe :=
  match service index frame with
  | Parsed l d =>
      {| id := id frame; dataUrl := dataUrl frame;
         processedUrl := processedUrl frame;
         timestamp := timestamp frame; score := score frame;
         label := Some (or_else l (frame_label index));
         aiDescription := Some (or_else d "Jewelry showcase");
         partId := partId frame; rankId := rankId frame |}
  | Throws =>
      {| id := id frame; dataUrl := dataUrl frame;
         processedUrl := processedUrl frame;
         timestamp := timestamp frame; score := score frame;
         label := Some (frame_label index);
         aiDescription := aiDescription frame;
         partId := partId frame; rankId := rankId frame |}
  end.

(** [Promise.all(frames.map(async (frame, index) => ...))]. *)
Definition analyzeFrames (service : nat -> Keyframe -> Reply)
  (frames : list Keyframe) : list Keyframe :=
  imap (analyzeFrame service) frames.

(** *** Sample input *)

(** A keyframe as the application labels it after a run. *)
Definition labelled_frame : Keyframe :=
  {| id := "p1_r1";
     dataUrl := "data:image/jpeg;base64,AAAA";
     processedUrl := None;
     timestamp := 0;
     score := Num 12;
     label := Some "Part 1 - Rank 1";
     aiDescription := Some "HD video frame";
     partId := 1;
     rankId := 1 |}.

Definition failing_service : nat -> Keyframe -> Reply := fun _ _ => Throws.

(** A service that answers with a label and without a description. *)
Definition answering_service : nat -> Keyframe -> Reply :=
  fun _ _ => Parsed (Some "Clarity Close-up") None.

End Labeling.

(** ** The application state: [App.tsx] *)

Module App.

Import Fingerprint Pipeline.

Inductive ProcessingStatus : Type :=
  | IDLE
  | QUEUED
  | PROCESSING
  | COMPLETED
  | ERROR.

Definition is_queued (s : ProcessingStatus) : bool :=
  match s with QUEUED => true | _ => false end.

Definition is_completed (s : ProcessingStatus) : bool :=
  match s with COMPLETED => true | _ => false end.

(** A batch.  File name and product key are strings of UTF-16 code units,
    like the name of a [File]. *)
Record ProductBatch : Type := {
  id : string;
  fileName : list Z;
  productKey : list Z;
  status : ProcessingStatus;
  progress : Z;
  frames : list Keyframe;
  metadata : option ProcessingMetadata;
  rawFile : option File
}.

(** [Partial<ProductBatch>]: for every key, whether it is present and with
    which value. *)
Record Updates : Type := {
  set_id : option string;
  set_fileName : option (list Z);
  set_productKey : option (list Z);
  set_status : option ProcessingStatus;
  set_progress : option Z;
  set_frames : option (list Keyframe);
  set_metadata : option (option ProcessingMetadata);
  set_rawFile : option (option File)
}.

Definition no_updates : Updates :=
  {| set_id := None; set_fileName := None; set_productKey := None;
     set_status := None; set_progress := None; set_frames := None;
     set_metadata := None; set_rawFile := None |}.

Definition or_keep {A} (new : option A) (old : A) : A :=
  match new with Some a => a | None => old end.

(** [{ ...b, ...updates }]. *)
Definition spread (b : ProductBatch) (updates : Updates) : ProductBatch :=
  {| id := or_keep (set_id updates) (id b);
     fileName := or_keep (set_fileName updates) (fileName b);
     productKey := or_keep (set_productKey updates) (productKey b);
     status := or_keep (set_status updates) (status b);
     progress := or_keep (set_progress updates) (progress b);
     frames := or_keep (set_frames updates) (frames b);
     metadata := or_keep (set_metadata updates) (metadata b);
     rawFile := or_keep (set_rawFile updates) (rawFile b) |}.

(** [prev.map(b => b.id === id ? { ...b, ...updates } : b)]. *)
Definition updateBatch (id0 : string) (updates : Updates)
  (batches : list ProductBatch) : list ProductBatch :=
  map (fun b => if String.eqb (id b) id0 then spread b updates else b) batches.

(** The two pieces of state that the handlers below change. *)
Record AppState : Type := {
  batches : list ProductBatch;
  activeBatchId : option string
}.

Definition removeBatch (id0 : string) (st : AppState) : AppState :=
  {| batches := List.filter (fun b => negb (String.eqb (id b) id0)) (batches st);
     activeBatchId :=
       match activeBatchId st with
       | Some a => if String.eqb a id0 then None else Some a
       | None => None
       end |}.

(** [name.split('.')[0]]: the code units before the first full stop. *)
Fixpoint before_dot (name : list Z) : list Z :=
  match name with
  | [] => []
  | c :: rest => if (c =? 46)%Z then [] else c :: before_dot rest
  end.

(** The batch made for the [k]-th selected file; [ids k] is the identifier
    drawn for it. *)
Definition new_batch (ids : nat -> string) (k : nat) (file : File)
  : ProductBatch :=
  {| id := ids k;
     fileName := name file;
     productKey := before_dot (name file);
     status := QUEUED;
     progress := 0;
     frames := [];
     metadata := None;
     rawFile := Some file |}.

(** [!activeBatchId]: no identifier, or the empty one. *)
Definition no_active (a : option string) : bool :=
  match a with
  | None | Some EmptyString => true
  | Some _ => false
  end.

Definition handleFileSelect (ids : nat -> string) (files : list File)
  (st : AppState) : AppState :=
  match files with
  | [] => st
  | file0 :: _ =>
      let newBatches := imap (new_batch ids) files in
      {| batches := batches st ++ newBatches;
         activeBatchId :=
           if no_active (activeBatchId st)
           then Some (id (new_batch ids 0 file0))
           else activeBatchId st |}
  end.

(** *** [startProcessing] *)

(** What a batch meets when its video is processed. *)
Record Env : Type := {
  clock : Clock;
  canvases : Canvases;
  video : Video
}.

(** The label and the description given to an extracted keyframe. *)
Definition relabel (f : Keyframe) : Keyframe :=
  {| Pipeline.id := Pipeline.id f;
     dataUrl := dataUrl f;
     processedUrl := processedUrl f;
     timestamp := timestamp f;
     score := score f;
     label := Some (String.append "分段 "
                      (String.append (pretty (partId f))
                         (String.append " - 排名 " (pretty (rankId f)))));
     aiDescription := Some "高清视频帧提取";
     partId := partId f;
     rankId := rankId f |}.

Definition with_status (s : ProcessingStatus) : Updates :=
  {| set_id := None; set_fileName := None; set_productKey := None;
     set_status := Some s; set_progress := None; set_frames := None;
     set_metadata := None; set_rawFile := None |}.

Definition with_progress (p : Z) : Updates :=
  {| set_id := None; set_fileName := None; set_productKey := None;
     set_status := None; set_progress := Some p; set_frames := None;
     set_metadata := None; set_rawFile := None |}.

Definition with_result (fs : list Keyframe) (md : ProcessingMetadata)
  : Updates :=
  {| set_id := None; set_fileName := None; set_productKey := None;
     set_status := Some COMPLETED; set_progress := None;
     set_frames := Some fs; set_metadata := Some (Some md);
     set_rawFile := None |}.

(** The loop over the queued batches.  The flag tells whether the loop runs
    to its end; it does not when a run stays pending. *)
Fixpoint process_queue (env : ProductBatch -> Env) (queued : list ProductBatch)
  (bs : list ProductBatch) : bool * list ProductBatch :=
  match queued with
  | [] => (true, bs)
  | batch :: rest =>
      let bs1 := updateBatch (id batch) (with_status PROCESSING) bs in
      match rawFile batch with
      | None =>
          process_queue env rest (updateBatch (id batch) (with_status ERROR) bs1)
      | Some file =>
          let e := env batch in
          let '(outcome, run) :=
            processVideo file (clock e) (canvases e) (video e) in
          let bs2 :=
            fold_left (fun bs p => updateBatch (id batch) (with_progress p) bs)
                      (reported run) bs1 in
          match outcome with
          | Resolved extracted md =>
              process_queue env rest
                (updateBatch (id batch)
                   (with_result (map relabel extracted) md) bs2)
          | Rejected _ =>
              process_queue env rest
                (updateBatch (id batch) (with_status ERROR) bs2)
          | Pending => (false, bs2)
          end
      end
  end.

Definition startProcessing (env : ProductBatch -> Env)
  (bs : list ProductBatch) : bool * list ProductBatch :=
  process_queue env (List.filter (fun b => is_queued (status b)) bs) bs.

(** *** One batch through [startProcessing] *)

(** The run that [startProcessing] starts for a batch with a file. *)
Definition run_of (env : ProductBatch -> Env) (batch : ProductBatch)
  (file : File) : Settled * Run :=
  processVideo file (clock (env batch)) (canvases (env batch))
               (video (env batch)).

(** The run of the batch stays pending. *)
Definition stalls (env : ProductBatch -> Env) (batch : ProductBatch) : bool :=
  match rawFile batch with
  | Some file =>
      match fst (run_of env batch file) with
      | Pending => true
      | _ => false
      end
  | None => false
  end.

(** The progress updates of a run, applied to one batch. *)
Definition apply_reports (ps : list Z) (b : ProductBatch) : ProductBatch :=
  fold_left (fun b p => spread b (with_progress p)) ps b.

(** The updates that the loop body for [batch] makes, applied to a batch
    [b] that carries the identifier of [batch]. *)
Definition settle_as (env : ProductBatch -> Env) (batch b : ProductBatch)
  : ProductBatch :=
  let b1 := spread b (with_status PROCESSING) in
  match rawFile batch with
  | None => spread b1 (with_status ERROR)
  | Some file =>
      let '(outcome, run) := run_of env batch file in
      let b2 := apply_reports (reported run) b1 in
      match outcome with
      | Resolved extracted md =>
          spread b2 (with_result (map relabel extracted) md)
      | Rejected _ => spread b2 (with_status ERROR)
      | Pending => b2
      end
  end.

Definition settle (env : ProductBatch -> Env) (b : ProductBatch)
  : ProductBatch :=
  settle_as env b b.

(** The queued batches that the loop reaches: all up to the first whose run
    stays pending, that one included. *)
Fixpoint attempted (env : ProductBatch -> Env) (queued : list ProductBatch)
  : list ProductBatch :=
  match queued with
  | [] => []
  | q :: rest => if stalls env q then [q] else q :: attempted env rest
  end.

(** A change made to every batch with the identifier [i]. *)
Definition on_id (i : string) (f : ProductBatch -> ProductBatch)
  (bs : list ProductBatch) : list ProductBatch :=
  map (fun b => if String.eqb (id b) i then f b else b) bs.

Definition has_id (ids : list string) (b : ProductBatch) : bool :=
  existsb (String.eqb (id b)) ids.

(** What identifies a batch and its source: identifier, file name,
    product key and file. *)
Definition same_source (b b' : ProductBatch) : Prop :=
  id b' = id b /\ fileName b' = fileName b /\
  productKey b' = productKey b /\ rawFile b' = rawFile b.

(** *** [downloadZip] *)

(** [s.split(',')[1]]: what stands between the first comma and the second,
    if there is a comma. *)
Fixpoint until_comma (s : string) : string :=
  match s with
  | EmptyString => EmptyString
  | String c s' =>
      if Ascii.eqb c "," then EmptyString else String c (until_comma s')
  end.

Fixpoint after_first_comma (s : string) : option string :=
  match s with
  | EmptyString => None
  | String c s' =>
      if Ascii.eqb c "," then Some (until_comma s') else after_first_comma s'
  end.

(** A field of the metadata in a template string; ["undefined"] when the
    metadata are missing. *)
Definition field_text (md : option ProcessingMetadata)
  (field : ProcessingMetadata -> string) : string :=
  match md with
  | Some m => field m
  | None => "undefined"
  end.

Definition zip_file_name (md : option ProcessingMetadata) (frame : Keyframe)
  : string :=
  String.append "JS_"
    (String.append (field_text md videoId)
       (String.append "_"
          (String.append (field_text md sessionTime)
             (String.append "_P"
                (String.append (pretty (partId frame))
                   (String.append "_R"
                      (String.append (pretty (rankId frame)) ".jpg"))))))).

(** What [downloadZip] hands to the archive: the name of the folder, the
    calls of [folder.file] in their order, each with the name of the file
    and its data, and the name of the download. *)
Record Archive : Type := {
  folder : list Z;
  entries : list (string * option string);
  download : list Z
}.

(** The code units of ["_精选图.zip"]. *)
Definition zip_suffix : list Z := [95; 31934; 36873; 22270; 46; 122; 105; 112]%Z.

(** The archive that [downloadZip] offers; nothing for a batch that is not
    completed. *)
Definition downloadZip (batch : ProductBatch) : option Archive :=
  if is_completed (status batch) then
    let topFrames := List.filter (fun f => rankId f =? 1) (frames batch) in
    Some {| folder := productKey batch;
            entries :=
              map (fun frame => (zip_file_name (metadata batch) frame,
                                 after_first_comma (dataUrl frame)))
                  topFrames;
            download := productKey batch ++ zip_suffix |}
  else None.

(** *** Sample state *)

Definition queued_batch (i : string) (file : option File) : ProductBatch :=
  {| id := i;
     fileName := code_units "ring.mp4";
     productKey := code_units "ring";
     status := QUEUED;
     progress := 0;
     frames := [];
     metadata := None;
     rawFile := file |}.

(** A finished batch, a queued batch with a file and one without. *)
Definition sample_batches : list ProductBatch :=
  [ {| id := "done"; fileName := code_units "old.mp4";
       productKey := code_units "old"; status := COMPLETED; progress := 100;
       frames := []; metadata := None; rawFile := Some sample_file |};
    queued_batch "first" (Some sample_file);
    queued_batch "second" None ].

(** Every video is the still video, at five past nine. *)
Definition still_env : ProductBatch -> Env :=
  fun _ => {| clock := nine_oh_five; canvases := both_contexts;
              video := still_video |}.

(** The video of the batch ["first"] never answers a seek. *)
Definition frozen_env : ProductBatch -> Env :=
  fun b => {| clock := nine_oh_five; canvases := both_contexts;
              video := if String.eqb (id b) "first" then frozen_video
                       else still_video |}.

Definition frozen_batches : list ProductBatch :=
  [ queued_batch "first" (Some sample_file);
    queued_batch "second" (Some sample_file) ].

End App.

(** * Properties *)

(** ** Loops over index ranges *)

Module Loops.

Lemma fold_left_ext_in {A B} (f g : A -> B -> A) l a :
  (forall a x, In x l -> f a x = g a x) ->
  fold_left f l a = fold_left g l a.
Proof.
  revert a. induction l as [|x l IH]; intros a H; simpl; [reflexivity|].
  rewrite H by (left; reflexivity). apply IH.
  intros a' x' Hin. apply H. right; exact Hin.
Qed.

(** Writes [a[j] = V j] for the indices of a list, in any order. *)
Lemma fold_insert_lookup {A} (V : nat -> A) (js : list nat) (l0 : list A) j :
  fold_left (fun l k => <[k := V k]> l) js l0 !! j
  = if decide (j ∈ js /\ j < length l0) then Some (V j) else l0 !! j.
Proof.
  revert l0. induction js as [|k js IH]; intros l0; cbn [fold_left].
  - rewrite decide_False; [reflexivity|]. intros [H _]. inversion H.
  - rewrite IH, length_insert.
    destruct (decide (j ∈ js /\ j < length l0)) as [[Hin Hlt]|Hn].
    + rewrite decide_True; [reflexivity|]. split; [right; exact Hin|exact Hlt].
    + destruct (decide (k = j)) as [->|Hne].
      * destruct (decide (j < length l0)) as [Hlt|Hge].
        -- rewrite decide_True by (split; [left|exact Hlt]).
           apply list_lookup_insert_eq; exact Hlt.
        -- rewrite decide_False by tauto.
           rewrite list_insert_ge by lia. reflexivity.
      * rewrite list_lookup_insert_ne by exact Hne.
        rewrite decide_False; [reflexivity|].
        intros [Hin Hlt]. apply Hn. split; [|exact Hlt].
        apply elem_of_cons in Hin as [->|Hin]; [congruence|exact Hin].
Qed.

Lemma fold_insert_length {A} (V : nat -> A) (js : list nat) (l0 : list A) :
  length (fold_left (fun l k => <[k := V k]> l) js l0) = length l0.
Proof.
  revert l0. induction js as [|k js IH]; intros l0; simpl; [reflexivity|].
  rewrite IH. apply length_insert.
Qed.

(** A loop over [b, b + n) that acts only at the indices of an increasing
    list visits them in the order of the list. *)
Lemma fold_sparse {A B} (F : A -> B -> A) (V : nat -> B) (z : B) :
  (forall a, F a z = a) ->
  forall n b js a,
    StronglySorted Nat.lt js ->
    Forall (fun j => b <= j < b + n) js ->
    fold_left (fun a j => F a (if decide (j ∈ js) then V j else z)) (seq b n) a
    = fold_left F (map V js) a.
Proof.
  intros Hz. induction n as [|n IH]; intros b js a Hs Hr; cbn [seq fold_left].
  - destruct js as [|j js]; [reflexivity|].
    inversion Hr; subst. lia.
  - destruct js as [|j0 js].
    + rewrite decide_False by (intros H; inversion H). rewrite Hz.
      rewrite (IH (S b) [] a); [reflexivity|constructor|constructor].
    + inversion Hs as [|? ? Hs' Hall]; subst.
      inversion Hr as [|? ? Hj0 Hr']; subst.
      rewrite Forall_forall in Hall, Hr'.
      destruct (decide (j0 = b)) as [->|Hne].
      * rewrite decide_True by left. cbn [map fold_left].
        rewrite <- (IH (S b) js (F a (V b))); [|exact Hs'|].
        -- apply fold_left_ext_in. intros a' x Hx. apply in_seq in Hx.
           destruct (decide (x ∈ js)) as [Hi|Hi].
           ++ rewrite decide_True by (right; exact Hi). reflexivity.
           ++ rewrite decide_False; [reflexivity|].
              intros Hi'. apply elem_of_cons in Hi' as [->|Hi']; [lia|tauto].
        -- apply Forall_forall. intros x Hx.
           specialize (Hall x Hx). specialize (Hr' x Hx).
           unfold Nat.lt in Hall. lia.
      * assert (Hnb : ~ b ∈ j0 :: js).
        { intros Hi. apply elem_of_cons in Hi as [->|Hi]; [lia|].
          specialize (Hall b Hi). unfold Nat.lt in Hall. lia. }
        rewrite decide_False by exact Hnb. rewrite Hz.
        apply (IH (S b) (j0 :: js) a); [exact Hs|].
        constructor; [lia|].
        apply Forall_forall. intros x Hx.
        specialize (Hall x Hx). specialize (Hr' x Hx).
        unfold Nat.lt in Hall. lia.
Qed.

End Loops.

(** ** The sharpness score *)

Module SharpnessFacts.

Import Sharpness Loops.

Lemma gray_value_luminance img x y :
  well_formed img -> x < width img -> y < height img ->
  gray_value (data img) (4 * (y * width img + x)) = Num (luminance img x y).
Proof.
  unfold well_formed. intros Hwf Hx Hy.
  assert (Hk : y * width img + x < width img * height img) by nia.
  unfold gray_value, luminance, channel, byte_at.
  rewrite Nat.add_0_r.
  destruct (lookup_lt_is_Some_2 (data img) (4 * (y * width img + x))) as [v0 ->]; [lia|].
  destruct (lookup_lt_is_Some_2 (data img) (4 * (y * width img + x) + 1)) as [v1 ->]; [lia|].
  destruct (lookup_lt_is_Some_2 (data img) (4 * (y * width img + x) + 2)) as [v2 ->]; [lia|].
  reflexivity.
Qed.

Lemma grayscale_lookup img x y :
  well_formed img -> x < width img -> y < height img ->
  rd (grayscale_of img) (y * width img + x) = Num (luminance img x y).
Proof.
  intros Hwf Hx Hy.
  assert (Hk : y * width img + x < width img * height img) by nia.
  unfold rd, grayscale_of.
  change (gray_step (data img))
    with (fun (g : list number) k => <[k := gray_value (data img) (4 * k)]> g).
  rewrite (fold_insert_lookup (fun k => gray_value (data img) (4 * k))).
  rewrite decide_True.
  - apply gray_value_luminance; assumption.
  - split.
    + apply list_elem_of_In, in_seq. unfold well_formed in Hwf. rewrite Hwf.
      replace (4 * (width img * height img) + 3) with (3 + (width img * height img) * 4) by lia.
      rewrite Nat.div_add by lia. simpl. lia.
    + rewrite length_replicate. exact Hk.
Qed.

Lemma laplacian_value_interior img x y :
  well_formed img ->
  1 <= x -> x + 1 < width img -> 1 <= y -> y + 1 < height img ->
  laplacian_value (grayscale_of img) (width img) (y * width img + x)
  = Num (laplacian_at img (x, y)).
Proof.
  intros Hwf Hx1 Hx2 Hy1 Hy2. unfold laplacian_value, laplacian_at.
  replace (y * width img + x - 1) with (y * width img + (x - 1)) by lia.
  replace (y * width img + x + 1) with (y * width img + (x + 1)) by lia.
  replace (y * width img + x - width img) with ((y - 1) * width img + x) by nia.
  replace (y * width img + x + width img) with ((y + 1) * width img + x) by nia.
  rewrite !grayscale_lookup by (assumption || lia).
  reflexivity.
Qed.


(** The nested loops write, add and count once per interior index. *)
Lemma lap_row_spec g w y xs st :
  let st' := fold_left (lap_cell g w y) xs st in
  let js := map (fun x => y * w + x) xs in
  laplacian st'
  = fold_left (fun l k => <[k := laplacian_value g w k]> l) js (laplacian st)
  /\ sum st' = fold_left add (map (laplacian_value g w) js) (sum st)
  /\ count st' = count st + length js.
Proof.
  revert st. induction xs as [|x xs IH]; intros st; cbn zeta.
  - cbn. repeat split. lia.
  - cbn [fold_left map length]. destruct (IH (lap_cell g w y st x)) as (Hl & Hs & Hc).
    cbn zeta in Hl, Hs, Hc. rewrite Hl, Hs, Hc. cbn. repeat split. lia.
Qed.

Lemma lap_rows_spec g w ys st :
  let st' := fold_left (lap_row g w) ys st in
  let js := flat_map (fun y => map (fun x => y * w + x) (seq 1 (w - 2))) ys in
  laplacian st'
  = fold_left (fun l k => <[k := laplacian_value g w k]> l) js (laplacian st)
  /\ sum st' = fold_left add (map (laplacian_value g w) js) (sum st)
  /\ count st' = count st + length js.
Proof.
  revert st. induction ys as [|y ys IH]; intros st; cbn zeta.
  - cbn. repeat split. lia.
  - cbn [fold_left flat_map]. destruct (IH (lap_row g w st y)) as (Hl & Hs & Hc).
    cbn zeta in Hl, Hs, Hc. rewrite Hl, Hs, Hc.
    destruct (lap_row_spec g w y (seq 1 (w - 2)) st) as (Hl' & Hs' & Hc').
    cbn zeta in Hl', Hs', Hc'. unfold lap_row. rewrite Hl', Hs', Hc'.
    rewrite map_app, !fold_left_app, length_app. repeat split. lia.
Qed.

Lemma lap_loops_spec g w h :
  let st := lap_loops g w h in
  let js := interior_indices w h in
  laplacian st
  = fold_left (fun l k => <[k := laplacian_value g w k]> l) js
              (replicate (w * h) (Num 0))
  /\ sum st = fold_left add (map (laplacian_value g w) js) (Num 0)
  /\ count st = length js.
Proof.
  apply (lap_rows_spec g w (seq 1 (h - 2))
           {| laplacian := replicate (w * h) (Num 0); sum := Num 0; count := 0 |}).
Qed.

(** Interior indices are listed in increasing order and lie in the array. *)
Lemma interior_rows_sorted w ys :
  StronglySorted Nat.lt ys ->
  StronglySorted Nat.lt
    (flat_map (fun y => map (fun x => y * w + x) (seq 1 (w - 2))) ys).
Proof.
  induction 1 as [|y ys Hs IH Hall]; cbn [flat_map]; [constructor|].
  assert (Hrow : forall b n, b + n <= w + 1 ->
            StronglySorted Nat.lt
              (map (fun x => y * w + x) (seq b n) ++
               flat_map (fun y => map (fun x => y * w + x) (seq 1 (w - 2))) ys)).
  { intros b n. revert b. induction n as [|n IHn]; intros b Hb; cbn [seq map app].
    - exact IH.
    - constructor; [apply IHn; lia|].
      apply Forall_app. split.
      + apply Forall_forall. intros j Hj.
        apply list_elem_of_In, in_map_iff in Hj. destruct Hj as (x & <- & Hx).
        apply in_seq in Hx. unfold Nat.lt. lia.
      + apply Forall_forall. intros j Hj.
        apply list_elem_of_In, in_flat_map in Hj. destruct Hj as (y' & Hy' & Hj).
        apply in_map_iff in Hj. destruct Hj as (x & <- & Hx). apply in_seq in Hx.
        rewrite Forall_forall in Hall.
        specialize (Hall y' (proj2 (list_elem_of_In _ _) Hy')).
        unfold Nat.lt in *. nia. }
  apply Hrow. lia.
Qed.

Lemma seq_sorted b n : StronglySorted Nat.lt (seq b n).
Proof.
  revert b. induction n as [|n IH]; intros b; cbn [seq]; constructor.
  - apply IH.
  - apply Forall_forall. intros x Hx. apply list_elem_of_In, in_seq in Hx.
    unfold Nat.lt. lia.
Qed.

Lemma interior_indices_sorted w h :
  StronglySorted Nat.lt (interior_indices w h).
Proof. apply interior_rows_sorted, seq_sorted. Qed.

Lemma interior_indices_elem w h j :
  j ∈ interior_indices w h ->
  exists x y, j = y * w + x /\ 1 <= x /\ x + 1 < w /\ 1 <= y /\ y + 1 < h.
Proof.
  intros Hj. apply list_elem_of_In, in_flat_map in Hj.
  destruct Hj as (y & Hy & Hj). apply in_map_iff in Hj.
  destruct Hj as (x & <- & Hx). apply in_seq in Hx, Hy.
  exists x, y. repeat split; lia.
Qed.

Lemma interior_indices_range w h :
  Forall (fun j => 0 <= j < 0 + w * h) (interior_indices w h).
Proof.
  apply Forall_forall. intros j Hj.
  destruct (interior_indices_elem w h j Hj) as (x & y & -> & ?). nia.
Qed.

Lemma interior_indices_map img :
  interior_indices (width img) (height img)
  = map (fun p => snd p * width img + fst p) (interior img).
Proof.
  unfold interior_indices, interior.
  induction (seq 1 (height img - 2)) as [|y ys IH]; cbn [flat_map]; [reflexivity|].
  rewrite map_app, IH, map_map. reflexivity.
Qed.

Lemma interior_elem img p :
  In p (interior img) ->
  1 <= fst p /\ fst p + 1 < width img /\ 1 <= snd p /\ snd p + 1 < height img.
Proof.
  unfold interior. intros Hp. apply in_flat_map in Hp.
  destruct Hp as (y & Hy & Hp). apply in_map_iff in Hp.
  destruct Hp as (x & <- & Hx). apply in_seq in Hx, Hy. cbn. lia.
Qed.

Lemma interior_values img :
  well_formed img ->
  map (laplacian_value (grayscale_of img) (width img))
      (interior_indices (width img) (height img))
  = map Num (map (laplacian_at img) (interior img)).
Proof.
  intros Hwf. rewrite interior_indices_map, !map_map.
  apply map_ext_in. intros [x y] Hp. apply interior_elem in Hp. cbn in Hp.
  cbn [fst snd]. apply laplacian_value_interior; tauto || lia.
Qed.


Lemma interior_indices_length w h :
  length (interior_indices w h) = (h - 2) * (w - 2).
Proof.
  unfold interior_indices.
  transitivity (length (seq 1 (h - 2)) * (w - 2)); [|rewrite length_seq; reflexivity].
  induction (seq 1 (h - 2)) as [|y ys IH]; cbn [flat_map length]; [reflexivity|].
  rewrite length_app, IH, length_map, length_seq. lia.
Qed.

Lemma interior_length img :
  interiorPixelCount img = (height img - 2) * (width img - 2).
Proof.
  unfold interiorPixelCount.
  rewrite <- interior_indices_length, interior_indices_map, length_map.
  reflexivity.
Qed.

Lemma laplacian_array g w h j :
  j < w * h ->
  rd (laplacian (lap_loops g w h)) j
  = if decide (j ∈ interior_indices w h)
    then laplacian_value g w j else Num 0.
Proof.
  intros Hj. destruct (lap_loops_spec g w h) as (Hl & _ & _).
  cbn zeta in Hl. unfold rd. rewrite Hl, fold_insert_lookup, length_replicate.
  destruct (decide (j ∈ interior_indices w h)) as [Hin|Hin].
  - rewrite decide_True by tauto. reflexivity.
  - rewrite decide_False by tauto.
    rewrite lookup_replicate_2 by exact Hj. reflexivity.
Qed.

Lemma laplacian_array_length g w h :
  length (laplacian (lap_loops g w h)) = w * h.
Proof.
  destruct (lap_loops_spec g w h) as (Hl & _ & _). cbn zeta in Hl.
  rewrite Hl, fold_insert_length. apply length_replicate.
Qed.

(** The score in terms of the values written at the interior indices. *)
Lemma score_by_interior img :
  let vals := map (laplacian_value (grayscale_of img) (width img))
                  (interior_indices (width img) (height img)) in
  let n := length (interior_indices (width img) (height img)) in
  let mean := div (fold_left add vals (Num 0)) (of_nat n) in
  calculateLaplacianVariance img
  = div (fold_left (var_acc mean) vals (Num 0)) (of_nat n).
Proof.
  cbn zeta. unfold calculateLaplacianVariance.
  destruct (lap_loops_spec (grayscale_of img) (width img) (height img))
    as (_ & Hs & Hc).
  cbn zeta in Hs, Hc. rewrite Hs, Hc, laplacian_array_length. f_equal.
  set (mean := div _ _).
  rewrite <- (fold_sparse (var_acc mean)
                (laplacian_value (grayscale_of img) (width img)) (Num 0)
                (fun a => eq_refl) (width img * height img) 0
                (interior_indices (width img) (height img)) (Num 0)
                (interior_indices_sorted _ _) (interior_indices_range _ _)).
  apply fold_left_ext_in. intros a j Hj. apply in_seq in Hj.
  unfold var_step. rewrite laplacian_array by lia. reflexivity.
Qed.

Lemma fold_add_num (l : list Q) (a : Q) :
  fold_left add (map Num l) (Num a) = Num (fold_left Qplus l a).
Proof.
  revert a. induction l as [|x l IH]; intros a; cbn [map fold_left]; [reflexivity|].
  cbn [add]. apply IH.
Qed.

Lemma fold_var_num (m : Q) (l : list Q) (a : Q) :
  fold_left (var_acc (Num m)) (map Num l) (Num a)
  = Num (fold_left Qplus
           (map (fun v => (v - m) ^ 2)%Q
                (List.filter (fun v => negb (Qeq_bool v 0)) l)) a).
Proof.
  revert a. induction l as [|x l IH]; intros a; cbn [map fold_left List.filter];
    [reflexivity|].
  unfold var_acc at 2. cbn [nonzero].
  destruct (negb (Qeq_bool x 0)); cbn [map fold_left].
  - rewrite <- IH. reflexivity.
  - apply IH.
Qed.

Lemma div_by_count (s : Q) (n : nat) :
  0 < n -> div (Num s) (of_nat n) = Num (s / inject_Z (Z.of_nat n)).
Proof.
  intros Hn. unfold div, of_nat.
  destruct (Qeq_bool (inject_Z (Z.of_nat n)) 0) eqn:E; [|reflexivity].
  apply Qeq_bool_eq in E. unfold Qeq in E. cbn in E. lia.
Qed.


Lemma score_with_interior img :
  well_formed img -> 2 < width img -> 2 < height img ->
  calculateLaplacianVariance img = Num (sharpness_reference img).
Proof.
  intros Hwf Hw Hh. rewrite score_by_interior.
  rewrite interior_values by exact Hwf.
  assert (Hn : length (interior_indices (width img) (height img))
               = interiorPixelCount img).
  { rewrite interior_indices_length, interior_length. reflexivity. }
  assert (Hpos : 0 < interiorPixelCount img).
  { rewrite interior_length. nia. }
  rewrite Hn, fold_add_num, div_by_count by exact Hpos.
  rewrite fold_var_num, div_by_count by exact Hpos.
  reflexivity.
Qed.




(** C4.  On a 1x1 and on a 2x2 frame the score is [NaN], the value of
    [0 / 0], and not [0]. *)
Theorem score_of_degenerate_frame_is_nan :
  calculateLaplacianVariance frame_1x1 = NaN /\
  calculateLaplacianVariance frame_2x2 = NaN.
Proof. split; vm_compute; reflexivity. Qed.

End SharpnessFacts.

(** ** The video fingerprint *)

Module FingerprintFacts.

Import Fingerprint.
Local Open Scope Z_scope.






Lemma hex_digit_value_digit (d : Z) :
  0 <= d < 16 -> hex_digit_value (hex_digit d) = d.
Proof.
  intros Hd.
  assert (H : d = 0 \/ d = 1 \/ d = 2 \/ d = 3 \/ d = 4 \/ d = 5 \/ d = 6 \/ d = 7
           \/ d = 8 \/ d = 9 \/ d = 10 \/ d = 11 \/ d = 12 \/ d = 13 \/ d = 14
           \/ d = 15) by lia.
  repeat (destruct H as [->|H]; [reflexivity|]). subst d. reflexivity.
Qed.

Lemma hex_go_value fuel : forall n acc,
  0 <= n < 2 ^ Z.of_nat fuel ->
  hex_value (hex_go fuel n acc)
  = n * 16 ^ Z.of_nat (String.length acc) + hex_value acc.
Proof.
  induction fuel as [|fuel IH]; intros n acc Hn; cbn [hex_go].
  - cbn in Hn. assert (n = 0) as -> by lia. lia.
  - destruct (n <? 16) eqn:E.
    + apply Z.ltb_lt in E. cbn [hex_value].
      rewrite hex_digit_value_digit by lia. reflexivity.
    + apply Z.ltb_ge in E. rewrite Nat2Z.inj_succ, Z.pow_succ_r in Hn by lia.
      rewrite IH.
      * cbn [hex_value String.length].
        rewrite hex_digit_value_digit by (apply Z.mod_pos_bound; lia).
        rewrite Nat2Z.inj_succ, Z.pow_succ_r by lia.
        rewrite (Z.div_mod n 16) at 3 by lia. ring.
      * split; [apply Z.div_pos; lia|].
        apply Z.div_lt_upper_bound; [lia|].
        assert (0 < 2 ^ Z.of_nat fuel) by (apply Z.pow_pos_nonneg; lia). lia.
Qed.

(** The rendering denotes the number: the digits are all there. *)
Lemma toString16_value (n : Z) : 0 <= n -> hex_value (toString16 n) = n.
Proof.
  intros Hn. unfold toString16. rewrite hex_go_value.
  - cbn [String.length hex_value]. lia.
  - split; [exact Hn|]. rewrite Nat2Z.inj_succ, Z2Nat.id by apply Z.log2_nonneg.
    destruct (Z.eq_dec n 0) as [->|Hne]; [reflexivity|].
    apply Z.log2_spec. lia.
Qed.









End FingerprintFacts.

(** ** Runs of the orchestrator *)

Module PipelineFacts.

Import Sharpness Fingerprint Pipeline.

(** *** Loops of tasks *)

(** A step of a loop leaves the object URL alone; it reports the values
    [p i] when it completes and an initial part of them otherwise. *)
Section ForM.
Context {A I : Type}.
Variable body : A -> I -> Task A.
Variable f : A -> I -> A.
Variable ok : I -> bool.
Variable p : I -> list Z.

Hypothesis body_spec : forall a i r,
  fst (body a i r) = (if ok i then Some (f a i) else None) /\
  objectUrlLive (snd (body a i r)) = objectUrlLive r /\
  exists q, reported (snd (body a i r)) = reported r ++ q /\
            q `prefix_of` p i /\ (ok i = true -> q = p i).

Lemma forM_spec : forall l a r,
  fst (forM body l a r)
    = (if forallb ok l then Some (fold_left f l a) else None) /\
  objectUrlLive (snd (forM body l a r)) = objectUrlLive r /\
  exists q, reported (snd (forM body l a r)) = reported r ++ q /\
            q `prefix_of` flat_map p l /\
            (forallb ok l = true -> q = flat_map p l).
Proof.
  induction l as [|i l IH]; intros a r; cbn [forM forallb fold_left flat_map].
  - cbn. repeat split. exists []. rewrite app_nil_r. repeat split. reflexivity.
  - destruct (body_spec a i r) as (Ho & Hu & q & Hq & Hpre & Hfull).
    unfold bind. destruct (body a i r) as [[a'|] r1] eqn:E; cbn [fst snd] in *.
    + destruct (ok i) eqn:Eok; [|discriminate]. injection Ho as ->.
      destruct (IH (f a i) r1) as (Ho' & Hu' & q' & Hq' & Hpre' & Hfull').
      cbn [andb]. split; [exact Ho'|]. split; [congruence|].
      exists (q ++ q'). rewrite Hq', Hq, Hfull by reflexivity.
      rewrite app_assoc. split; [reflexivity|]. split.
      * apply prefix_app, Hpre'.
      * intros Hall. rewrite Hfull' by exact Hall. reflexivity.
    + destruct (ok i) eqn:Eok; [discriminate|]. cbn [andb].
      split; [reflexivity|]. split; [exact Hu|].
      exists q. split; [exact Hq|]. split; [|discriminate].
      apply prefix_app_r, Hpre.
Qed.
End ForM.

Lemma fold_left_snoc_map {A I} (g : I -> A) (l : list I) (acc : list A) :
  fold_left (fun a i => a ++ [g i]) l acc = acc ++ map g l.
Proof.
  revert acc. induction l as [|i l IH]; intros acc; cbn [fold_left map].
  - rewrite app_nil_r. reflexivity.
  - rewrite IH, <- app_assoc. reflexivity.
Qed.

Lemma fold_left_snoc_flat_map {A I} (g : I -> list A) (l : list I) (acc : list A) :
  fold_left (fun a i => a ++ g i) l acc = acc ++ flat_map g l.
Proof.
  revert acc. induction l as [|i l IH]; intros acc; cbn [fold_left flat_map].
  - rewrite app_nil_r. reflexivity.
  - rewrite IH, <- app_assoc. reflexivity.
Qed.

(** A loop that reads [top[j]] for every index of [top]. *)
Lemma fold_left_lookup_imap {A B} (g : nat -> B -> A) (top : list B) :
  forall (pre : list B) (acc : list A),
    fold_left (fun a j => match (pre ++ top) !! j with
                          | Some x => a ++ [g j x]
                          | None => a
                          end)
              (seq (length pre) (length top)) acc
    = acc ++ imap (fun j x => g (length pre + j) x) top.
Proof.
  induction top as [|x top IH]; intros pre acc; cbn [length seq fold_left imap].
  - rewrite app_nil_r. reflexivity.
  - rewrite list_lookup_middle by reflexivity.
    replace (pre ++ x :: top) with ((pre ++ [x]) ++ top)
      by (rewrite <- app_assoc; reflexivity).
    replace (S (length pre)) with (length (pre ++ [x]))
      by (rewrite length_app; cbn; lia).
    rewrite IH, <- app_assoc, Nat.add_0_r. cbn [app]. f_equal. f_equal.
    apply imap_ext. intros j y _. cbn. rewrite length_app. cbn [length].
    f_equal. lia.
Qed.


(** *** The bodies of the three loops *)

Lemma score_sample_spec v w h sd s acc i r :
  fst (score_sample v w h sd s acc i r)
    = (if scoring_completes v w h sd s i
       then Some (acc ++ [sample_at v w h sd s i]) else None) /\
  objectUrlLive (snd (score_sample v w h sd s acc i r)) = objectUrlLive r /\
  exists q, reported (snd (score_sample v w h sd s acc i r)) = reported r ++ q /\
            q `prefix_of` [progress_at s i] /\
            (scoring_completes v w h sd s i = true -> q = [progress_at s i]).
Proof.
  unfold score_sample, scoring_completes, bind, onProgress, seek, getImageData, ret.
  cbn [reported objectUrlLive currentTime].
  destruct (seeked v (sample_time sd s i)); cbn [andb].
  - destruct ((w =? 0) || (h =? 0)); cbn [negb fst snd reported objectUrlLive];
      (split; [reflexivity|]; split; [reflexivity|];
       exists [progress_at s i]; repeat split; reflexivity).
  - cbn [fst snd reported objectUrlLive].
    split; [reflexivity|]; split; [reflexivity|].
    exists [progress_at s i]. repeat split; reflexivity.
Qed.

Lemma capture_frame_spec v s top acc j r :
  fst (capture_frame v s top acc j r)
    = (if capture_completes v top j
       then Some (match top !! j with
                  | Some x => acc ++ [make_keyframe s j x (jpeg v (time x))]
                  | None => acc
                  end)
       else None) /\
  objectUrlLive (snd (capture_frame v s top acc j r)) = objectUrlLive r /\
  exists q, reported (snd (capture_frame v s top acc j r)) = reported r ++ q /\
            q `prefix_of` [] /\ (capture_completes v top j = true -> q = []).
Proof.
  unfold capture_frame, capture_completes.
  destruct (top !! j) as [x|]; cbn [fst snd].
  - unfold bind, seek, toDataURL, ret.
    destruct (seeked v (time x)); cbn [fst snd reported objectUrlLive currentTime];
      (split; [reflexivity|]; split; [reflexivity|];
       exists []; rewrite app_nil_r; repeat split; reflexivity).
  - split; [reflexivity|]; split; [reflexivity|].
    exists []. rewrite app_nil_r. repeat split; reflexivity.
Qed.

Lemma flat_map_singleton {A B} (g : A -> B) (l : list A) :
  flat_map (fun i => [g i]) l = map g l.
Proof. induction l as [|x l IH]; cbn; congruence. Qed.

Lemma flat_map_nil {A B} (l : list A) :
  flat_map (fun _ => @nil B) l = [].
Proof. induction l as [|x l IH]; cbn; congruence. Qed.

Lemma process_segment_spec v w h sd acc s r :
  fst (process_segment v w h sd acc s r)
    = (if segment_completes v w h sd s
       then Some (acc ++ segment_keyframes v w h sd s) else None) /\
  objectUrlLive (snd (process_segment v w h sd acc s r)) = objectUrlLive r /\
  exists q, reported (snd (process_segment v w h sd acc s r)) = reported r ++ q /\
            q `prefix_of` map (progress_at s) (seq 0 samplesPerSegment) /\
            (segment_completes v w h sd s = true ->
             q = map (progress_at s) (seq 0 samplesPerSegment)).
Proof.
  unfold process_segment, segment_completes, bind.
  destruct (forM_spec _ _ _ _ (score_sample_spec v w h sd s)
              (seq 0 samplesPerSegment) [] r) as (Ho & Hu & q & Hq & Hpre & Hfull).
  rewrite flat_map_singleton in Hpre, Hfull.
  rewrite fold_left_snoc_map in Ho. cbn [app] in Ho.
  fold (segment_samples v w h sd s) in Ho.
  destruct (forM (score_sample v w h sd s) (seq 0 samplesPerSegment) [] r)
    as [[smps|] r1]; cbn [fst snd] in *.
  - destruct (forallb (scoring_completes v w h sd s) (seq 0 samplesPerSegment));
      [|discriminate].
    injection Ho as ->. cbn [andb].
    set (top := top3 (segment_samples v w h sd s)).
    destruct (forM_spec _ _ _ _ (capture_frame_spec v s top)
                (seq 0 (length top)) acc r1) as (Ho' & Hu' & q' & Hq' & Hpre' & _).
    rewrite flat_map_nil in Hpre'. apply prefix_nil_inv in Hpre'. subst q'.
    rewrite app_nil_r in Hq'.
    split.
    + rewrite Ho'. destruct (forallb _ _); [|reflexivity]. f_equal.
      apply (fold_left_lookup_imap
               (fun j x => make_keyframe s j x (jpeg v (time x))) top [] acc).
    + split; [congruence|]. exists q. rewrite Hq', Hq.
      split; [reflexivity|]. split; [exact Hpre|]. intros _. apply Hfull. reflexivity.
  - destruct (forallb (scoring_completes v w h sd s) (seq 0 samplesPerSegment));
      [discriminate|].
    cbn [andb]. split; [reflexivity|]. split; [exact Hu|].
    exists q. split; [exact Hq|]. split; [exact Hpre|]. discriminate.
Qed.

(** *** The run as a whole *)

Lemma segments_spec v w h sd r :
  fst (forM (process_segment v w h sd) (seq 0 segments) [] r)
    = (if forallb (segment_completes v w h sd) (seq 0 segments)
       then Some (all_keyframes v w h sd) else None) /\
  objectUrlLive (snd (forM (process_segment v w h sd) (seq 0 segments) [] r))
    = objectUrlLive r /\
  exists q, reported (snd (forM (process_segment v w h sd) (seq 0 segments) [] r))
              = reported r ++ q /\
            q `prefix_of` scoring_reports /\
            (forallb (segment_completes v w h sd) (seq 0 segments) = true ->
             q = scoring_reports).
Proof.
  destruct (forM_spec _ _ _ _ (process_segment_spec v w h sd)
              (seq 0 segments) [] r) as (Ho & Hu & Hq).
  rewrite fold_left_snoc_flat_map in Ho. cbn [app] in Ho.
  split; [exact Ho|]. split; [exact Hu|exact Hq].
Qed.

(** A resolved run: the keyframes of the five segments, the reports of the
    scoring loops followed by 100, and the object URL revoked. *)
Lemma run_resolved file now dom v frames md r :
  processVideo file now dom v = (Resolved frames md, r) ->
  exists d vw vh,
    event v = LoadedMetadata d vw vh /\
    frames = all_keyframes v (fst (analysis_size vw vh)) (snd (analysis_size vw vh))
               (d / inject_Z (Z.of_nat segments)) /\
    md = metadata_of file now /\
    reported r = scoring_reports ++ [100%Z] /\
    objectUrlLive r = false.
Proof.
  unfold processVideo. destruct (event v) as [d vw vh|]; [|discriminate].
  destruct (analysis_size vw vh) as [w h] eqn:Es.
  destruct (negb (captureCtx dom) || negb (analysisCtx dom)); [discriminate|].
  set (r0 := {| reported := []; objectUrlLive := true; currentTime := 0 |}).
  set (sd := (d / inject_Z (Z.of_nat segments))%Q).
  destruct (segments_spec v w h sd r0) as (Ho & Hu & q & Hq & _ & Hfull).
  destruct (forM (process_segment v w h sd) (seq 0 segments) [] r0)
    as [[fr|] r1]; cbn [fst snd] in *; [|discriminate].
  destruct (forallb (segment_completes v w h sd) (seq 0 segments)); [|discriminate].
  injection Ho as ->. intros Heq. injection Heq as <- <- <-.
  exists d, vw, vh. rewrite Es. cbn [fst snd].
  repeat split. cbn [revokeObjectURL reported].
  rewrite Hq, Hfull by reflexivity. reflexivity.
Qed.

(** Whatever the outcome, the reports are an initial part of the reports of
    a resolved run. *)
Lemma run_reports_prefix file now dom v :
  reported (snd (processVideo file now dom v))
    `prefix_of` scoring_reports ++ [100%Z].
Proof.
  unfold processVideo. destruct (event v) as [d vw vh|]; [|apply prefix_nil].
  destruct (analysis_size vw vh) as [w h].
  destruct (negb (captureCtx dom) || negb (analysisCtx dom)); [apply prefix_nil|].
  set (r0 := {| reported := []; objectUrlLive := true; currentTime := 0 |}).
  set (sd := (d / inject_Z (Z.of_nat segments))%Q).
  destruct (segments_spec v w h sd r0) as (Ho & _ & q & Hq & Hpre & Hfull).
  destruct (forM (process_segment v w h sd) (seq 0 segments) [] r0)
    as [[fr|] r1]; cbn [fst snd] in *.
  - destruct (forallb (segment_completes v w h sd) (seq 0 segments)); [|discriminate].
    cbn [onProgress revokeObjectURL reported snd].
    rewrite Hq, Hfull by reflexivity. reflexivity.
  - rewrite Hq. cbn [app]. apply prefix_app_r, Hpre.
Qed.

(** A run resolves when the metadata load, both contexts exist and every
    segment completes. *)
Lemma run_resolves file now dom v d vw vh :
  event v = LoadedMetadata d vw vh ->
  captureCtx dom = true -> analysisCtx dom = true ->
  forallb (segment_completes v (fst (analysis_size vw vh))
             (snd (analysis_size vw vh)) (d / inject_Z (Z.of_nat segments)))
          (seq 0 segments) = true ->
  exists r,
    processVideo file now dom v
    = (Resolved (all_keyframes v (fst (analysis_size vw vh))
                   (snd (analysis_size vw vh)) (d / inject_Z (Z.of_nat segments)))
                (metadata_of file now), r).
Proof.
  intros Hev Hc Ha Hall. unfold processVideo. rewrite Hev, Hc, Ha.
  destruct (analysis_size vw vh) as [w h]. cbn [fst snd negb orb] in *.
  set (r0 := {| reported := []; objectUrlLive := true; currentTime := 0 |}).
  set (sd := (d / inject_Z (Z.of_nat segments))%Q) in *.
  destruct (segments_spec v w h sd r0) as (Ho & _).
  rewrite Hall in Ho.
  destruct (forM (process_segment v w h sd) (seq 0 segments) [] r0)
    as [[fr|] r1]; cbn [fst] in Ho; [|discriminate].
  injection Ho as ->. eexists. reflexivity.
Qed.


(** *** The stable sort *)

Section SortFacts.
Context {A : Type}.
Variable cmp : A -> A -> number.
Variables key pos : A -> Q.
Variable P : A -> Prop.

Hypothesis cmp_key : forall a b,
  P a -> P b -> sign (cmp a b) = (key b ?= key a)%Q.

Lemma insert_perm x l : Permutation (insert cmp x l) (x :: l).
Proof.
  induction l as [|y l IH]; cbn [insert]; [reflexivity|].
  destruct (sign (cmp y x)); try reflexivity.
  rewrite IH. apply perm_swap.
Qed.

Lemma sort_perm l : Permutation (sort cmp l) l.
Proof.
  induction l as [|x l IH]; cbn [sort]; [reflexivity|].
  rewrite insert_perm. apply perm_skip, IH.
Qed.




End SortFacts.


Lemma sort_length {A} (cmp : A -> A -> number) l :
  length (sort cmp l) = length l.
Proof. apply Permutation_length, sort_perm. Qed.


(** The largest score first, equal scores in their original order. *)
Example top3_descending_and_stable :
  top3 [sample_of 0 1; sample_of 1 5; sample_of 2 5; sample_of 3 2;
        sample_of 4 7; sample_of 5 5]
  = [sample_of 4 7; sample_of 1 5; sample_of 2 5].
Proof. reflexivity. Qed.

(** Scores that are all [NaN] leave the samples in their order. *)
Example top3_of_nan_scores :
  top3 [{| time := 0; sampleScore := NaN |}; {| time := 1; sampleScore := NaN |};
        {| time := 2; sampleScore := NaN |}; {| time := 3; sampleScore := NaN |}]
  = [{| time := 0; sampleScore := NaN |}; {| time := 1; sampleScore := NaN |};
     {| time := 2; sampleScore := NaN |}].
Proof. reflexivity. Qed.

(** *** Scores of one segment *)








Lemma inject_nat_le (i j : nat) :
  i <= j -> (inject_Z (Z.of_nat i) <= inject_Z (Z.of_nat j))%Q.
Proof. intros H. rewrite <- Zle_Qle. lia. Qed.


Lemma map_seq_sorted {A} (R : A -> A -> Prop) (g : nat -> A) :
  (forall i j, i <= j -> R (g i) (g j)) ->
  forall n b, StronglySorted R (map g (seq b n)).
Proof.
  intros Hg. induction n as [|n IH]; intros b; cbn [seq map]; constructor.
  - apply IH.
  - apply Forall_forall. intros x Hx.
    apply list_elem_of_In, in_map_iff in Hx. destruct Hx as (j & <- & Hj).
    apply in_seq in Hj. apply Hg. lia.
Qed.




(** *** Keyframes of a resolved run *)

Lemma top3_length v w h sd s :
  length (top3 (segment_samples v w h sd s)) = 3.
Proof.
  unfold top3. rewrite length_take, sort_length.
  unfold segment_samples. rewrite length_map, length_seq. reflexivity.
Qed.

Lemma in_all_keyframes v w h sd k :
  In k (all_keyframes v w h sd) <->
  exists s j x,
    s < segments /\
    top3 (segment_samples v w h sd s) !! j = Some x /\
    k = make_keyframe s j x (jpeg v (time x)).
Proof.
  unfold all_keyframes. rewrite in_flat_map. split.
  - intros (s & Hs & Hk). apply in_seq in Hs.
    apply list_elem_of_In, elem_of_lookup_imap in Hk. destruct Hk as (j & x & -> & Hx).
    exists s, j, x. repeat split; [lia|exact Hx].
  - intros (s & j & x & Hs & Hx & ->). exists s. split; [apply in_seq; lia|].
    apply list_elem_of_In, elem_of_lookup_imap. exists j, x. split; [reflexivity|exact Hx].
Qed.

Lemma top3_lookup {A} (cmp : A -> A -> number) l j x :
  take 3 (sort cmp l) !! j = Some x <-> j < 3 /\ sort cmp l !! j = Some x.
Proof.
  split.
  - intros H. assert (Hj : j < 3).
    { apply lookup_lt_Some in H. rewrite length_take in H. lia. }
    split; [exact Hj|]. rewrite lookup_take_lt in H by exact Hj. exact H.
  - intros [Hj H]. rewrite lookup_take_lt by exact Hj. exact H.
Qed.



Lemma segment_ranks v w h sd s :
  map (fun k => (partId k, rankId k)) (segment_keyframes v w h sd s)
  = map (fun j => (s + 1, j)) (seq 1 3).
Proof.
  unfold segment_keyframes. assert (Hl := top3_length v w h sd s).
  destruct (top3 (segment_samples v w h sd s)) as [|a [|b [|c [|e l]]]];
    try discriminate.
  reflexivity.
Qed.

Lemma all_keyframes_ranks v w h sd :
  map (fun k => (partId k, rankId k)) (all_keyframes v w h sd)
  = flat_map (fun s => map (fun j => (s, j)) (seq 1 3)) (seq 1 segments).
Proof.
  unfold all_keyframes. cbn [segments seq flat_map].
  rewrite !map_app, !segment_ranks. reflexivity.
Qed.

Lemma all_keyframes_length v w h sd :
  length (all_keyframes v w h sd) = segments * 3.
Proof.
  rewrite <- (length_map (fun k => (partId k, rankId k))), all_keyframes_ranks.
  reflexivity.
Qed.

(** C1.  A resolved run returns [5 * 3 = 15] keyframes, and their
    (segment, rank) pairs are (1,1), (1,2), (1,3), (2,1), ..., (5,3) in this
    order: every pair once, segment by segment and rank by rank. *)
Theorem keyframes_segment_major_rank_minor
  (file : File) (now : Clock) (dom : Canvases) (v : Video)
  (frames : list Keyframe) (md : ProcessingMetadata) (r : Run) :
  processVideo file now dom v = (Resolved frames md, r) ->
  length frames = segments * 3 /\
  map (fun k => (partId k, rankId k)) frames
  = flat_map (fun s => map (fun j => (s, j)) (seq 1 3)) (seq 1 segments).
Proof.
  intros Hrun. apply run_resolved in Hrun.
  destruct Hrun as (d & vw & vh & _ & -> & _).
  split; [apply all_keyframes_length|apply all_keyframes_ranks].
Qed.

(** Every segment completes when the canvas is not empty and every seek to
    a sampling time is answered. *)
Lemma segments_complete v w h sd :
  w <> 0 -> h <> 0 ->
  (forall s i, seeked v (sample_time sd s i) = true) ->
  forallb (segment_completes v w h sd) (seq 0 segments) = true.
Proof.
  intros Hw Hh Hseek. apply forallb_forall. intros s _.
  unfold segment_completes. apply andb_true_iff. split.
  - apply forallb_forall. intros i _. unfold scoring_completes.
    rewrite Hseek. destruct w; [contradiction|]. destruct h; [contradiction|].
    reflexivity.
  - cbn zeta. apply forallb_forall. intros j Hj. apply in_seq in Hj.
    unfold capture_completes.
    destruct (top3 (segment_samples v w h sd s) !! j) as [x|] eqn:Ex.
    + apply (proj1 (top3_lookup _ _ _ _)) in Ex. destruct Ex as [_ Ex].
      assert (Hin : In x (segment_samples v w h sd s)).
      { eapply Permutation_in; [apply sort_perm|].
        apply list_elem_of_In, list_elem_of_lookup. exists j. exact Ex. }
      apply in_map_iff in Hin. destruct Hin as (i & <- & _). apply Hseek.
    + apply lookup_ge_None in Ex. lia.
Qed.

Lemma tiny_video_resolves d :
  exists r,
    processVideo sample_file nine_oh_five both_contexts (tiny_video d)
    = (Resolved (all_keyframes (tiny_video d) 4 4 (d / inject_Z (Z.of_nat segments)))
                (metadata_of sample_file nine_oh_five), r).
Proof.
  apply (run_resolves sample_file nine_oh_five both_contexts (tiny_video d) d 4 4
           eq_refl eq_refl eq_refl).
  change (analysis_size 4 4) with (4, 4). cbn [fst snd].
  apply segments_complete; [discriminate|discriminate|].
  intros s i. reflexivity.
Qed.

Lemma keyframes_segment_major_rank_minor_witness :
  exists frames md r,
    processVideo sample_file nine_oh_five both_contexts (tiny_video 10)
    = (Resolved frames md, r) /\
    length frames = segments * 3 /\
    map (fun k => (partId k, rankId k)) frames
    = flat_map (fun s => map (fun j => (s, j)) (seq 1 3)) (seq 1 segments).
Proof.
  destruct (tiny_video_resolves 10) as [r Hr].
  exists (all_keyframes (tiny_video 10) 4 4 (10 / inject_Z (Z.of_nat segments))),
         (metadata_of sample_file nine_oh_five), r.
  split; [exact Hr|].
  exact (keyframes_segment_major_rank_minor _ _ _ _ _ _ _ Hr).
Defined.





(** A run evaluated from end to end: on the still video all scores tie, and
    each segment keeps its first three samples. *)
Example still_video_run :
  summary (fst (processVideo sample_file nine_oh_five both_contexts still_video))
  = Some ([("p1_r1", 1, 1, 0%Q); ("p1_r2", 1, 2, 1 # 12); ("p1_r3", 1, 3, 1 # 6);
           ("p2_r1", 2, 1, 2%Q); ("p2_r2", 2, 2, 25 # 12); ("p2_r3", 2, 3, 13 # 6);
           ("p3_r1", 3, 1, 4%Q); ("p3_r2", 3, 2, 49 # 12); ("p3_r3", 3, 3, 25 # 6);
           ("p4_r1", 4, 1, 6%Q); ("p4_r2", 4, 2, 73 # 12); ("p4_r3", 4, 3, 37 # 6);
           ("p5_r1", 5, 1, 8%Q); ("p5_r2", 5, 2, 97 # 12); ("p5_r3", 5, 3, 49 # 6)],
          {| videoId := "3A19"; sessionTime := "090530" |}).
Proof. vm_compute. reflexivity. Qed.

(** *** Progress reports *)

(** The scoring loops report [floor(k / 120 * 80)] for [k = 0, ..., 119]. *)
Lemma scoring_reports_formula :
  scoring_reports
  = map (fun k => Qfloor (inject_Z (Z.of_nat k) / 120 * 80)) (seq 0 120).
Proof. vm_compute. reflexivity. Qed.

(** Rounding to binary64 does not change any of the 120 values. *)
Lemma scoring_reports_binary64 :
  scoring_reports
  = flat_map (fun s => map (progress_binary64 s) (seq 0 samplesPerSegment))
             (seq 0 segments).
Proof. vm_compute. reflexivity. Qed.

Lemma scoring_reports_below_80 : Forall (fun p => (0 <= p < 80)%Z) scoring_reports.
Proof. apply Forall_forall. intros p Hp. vm_compute in Hp.
  repeat (apply elem_of_cons in Hp as [->|Hp]; [lia|]). inversion Hp. Qed.

Lemma resolved_reports_lookup (k : nat) :
  k < 120 ->
  (scoring_reports ++ [100%Z]) !! k
  = Some (Qfloor (inject_Z (Z.of_nat k) / 120 * 80)).
Proof.
  intros Hk. rewrite scoring_reports_formula.
  rewrite lookup_app_l by (rewrite length_map, length_seq; exact Hk).
  rewrite list_lookup_fmap, lookup_seq_lt by exact Hk. reflexivity.
Qed.

(** C5, as the code has it.  The value handed to the progress callback at
    the start of the [i]-th scoring sample, when [i - 1] samples are done,
    is [floor((i - 1) / 120 * 80)]; it is below 80.  In a resolved run all
    120 of these reports occur, and the next report is the final 100. *)
Theorem progress_reported_at_sample_start
  (file : File) (now : Clock) (dom : Canvases) (v : Video) (i : nat) :
  1 <= i <= segments * samplesPerSegment ->
  (forall p,
     reported (snd (processVideo file now dom v)) !! (i - 1) = Some p ->
     p = Qfloor (inject_Z (Z.of_nat (i - 1)) / 120 * 80) /\ (p < 80)%Z) /\
  (forall frames md r,
     processVideo file now dom v = (Resolved frames md, r) ->
     reported r !! (i - 1)
       = Some (Qfloor (inject_Z (Z.of_nat (i - 1)) / 120 * 80)) /\
     reported r !! 120 = Some 100%Z).
Proof.
  intros Hi. change (segments * samplesPerSegment) with 120 in Hi. split.
  - intros p Hp.
    pose proof (prefix_lookup_Some _ _ _ _ Hp (run_reports_prefix file now dom v)) as Hl.
    rewrite resolved_reports_lookup in Hl by lia. injection Hl as <-.
    split; [reflexivity|].
    pose proof scoring_reports_below_80 as Hb. rewrite Forall_forall in Hb.
    apply Hb. apply list_elem_of_lookup. exists (i - 1).
    rewrite scoring_reports_formula, list_lookup_fmap, lookup_seq_lt by lia.
    reflexivity.
  - intros frames md r Hrun. apply run_resolved in Hrun.
    destruct Hrun as (d & vw & vh & _ & _ & _ & -> & _).
    split; [apply resolved_reports_lookup; lia|].
    rewrite lookup_app_r by (rewrite scoring_reports_formula, length_map, length_seq; lia).
    rewrite scoring_reports_formula, length_map, length_seq. reflexivity.
Qed.

Lemma progress_reported_at_sample_start_witness :
  1 <= 120 <= segments * samplesPerSegment /\
  (forall p,
     reported (snd (processVideo sample_file nine_oh_five both_contexts
                      (tiny_video 10))) !! (120 - 1) = Some p ->
     p = Qfloor (inject_Z (Z.of_nat (120 - 1)) / 120 * 80) /\ (p < 80)%Z) /\
  (forall frames md r,
     processVideo sample_file nine_oh_five both_contexts (tiny_video 10)
     = (Resolved frames md, r) ->
     reported r !! (120 - 1)
       = Some (Qfloor (inject_Z (Z.of_nat (120 - 1)) / 120 * 80)) /\
     reported r !! 120 = Some 100%Z).
Proof.
  assert (Hi : 1 <= 120 <= segments * samplesPerSegment) by (cbn; lia).
  exact (conj Hi (progress_reported_at_sample_start sample_file nine_oh_five
                    both_contexts (tiny_video 10) 120 Hi)).
Defined.

(** C5, counterexample.  In a resolved run the report at the start of the
    120th and last scoring sample is 79, the report that follows the end of
    that sample is 100, and 80 is never reported; the second report is 0
    and not [floor(2 / 120 * 80) = 1]. *)
Lemma progress_never_reports_80 :
  exists frames md r,
    processVideo sample_file nine_oh_five both_contexts (tiny_video 10)
    = (Resolved frames md, r) /\
    reported r !! 1 = Some 0%Z /\
    reported r !! 119 = Some 79%Z /\
    reported r !! 120 = Some 100%Z /\
    ~ In 80%Z (reported r).
Proof.
  destruct (tiny_video_resolves 10) as [r Hr].
  eexists _, _, r. split; [exact Hr|].
  apply run_resolved in Hr. destruct Hr as (d & vw & vh & _ & _ & _ & -> & _).
  repeat split; try (vm_compute; reflexivity).
  intros Hin. apply in_app_or in Hin. destruct Hin as [Hin|[Hin|[]]]; [|discriminate].
  pose proof scoring_reports_below_80 as Hb. rewrite Forall_forall in Hb.
  apply list_elem_of_In, Hb in Hin. lia.
Qed.

Lemma sorted_snoc {A} (R : A -> A -> Prop) (l : list A) (a : A) :
  StronglySorted R l -> Forall (fun x => R x a) l -> StronglySorted R (l ++ [a]).
Proof.
  induction 1 as [|x l Hs IH Hx]; intros Ha; cbn [app].
  - constructor; constructor.
  - apply Forall_cons in Ha as [Hxa Ha]. constructor; [apply IH, Ha|].
    apply Forall_app. split; [exact Hx|constructor; [exact Hxa|constructor]].
Qed.

(** C6.  In a resolved run the reported values never decrease and lie in
    [0, 100]; there is one report for each of the 120 scoring samples, and
    then a last report, the only one that is 100. *)
Theorem progress_monotone_and_ends_with_100
  (file : File) (now : Clock) (dom : Canvases) (v : Video)
  (frames : list Keyframe) (md : ProcessingMetadata) (r : Run) :
  processVideo file now dom v = (Resolved frames md, r) ->
  StronglySorted Z.le (reported r) /\
  Forall (fun p => (0 <= p <= 100)%Z) (reported r) /\
  exists scoring,
    reported r = scoring ++ [100%Z] /\
    length scoring = segments * samplesPerSegment /\
    ~ In 100%Z scoring.
Proof.
  intros Hrun. apply run_resolved in Hrun.
  destruct Hrun as (d & vw & vh & _ & _ & _ & -> & _).
  pose proof scoring_reports_below_80 as Hb.
  split; [|split].
  - apply sorted_snoc.
    + rewrite scoring_reports_formula. apply map_seq_sorted.
      intros i j Hij. apply Qfloor_resp_le.
      apply Qmult_le_compat_r; [|discriminate].
      apply Qmult_le_compat_r; [apply inject_nat_le, Hij|discriminate].
    + eapply Forall_impl; [exact Hb|]. cbn. intros p Hp. lia.
  - apply Forall_app. split.
    + eapply Forall_impl; [exact Hb|]. cbn. intros p Hp. lia.
    + constructor; [lia|constructor].
  - exists scoring_reports. split; [reflexivity|]. split.
    + rewrite scoring_reports_formula, length_map, length_seq. reflexivity.
    + intros Hin. rewrite Forall_forall in Hb.
      apply list_elem_of_In, Hb in Hin. lia.
Qed.

Lemma progress_monotone_and_ends_with_100_witness :
  exists frames md r,
    processVideo sample_file nine_oh_five both_contexts (tiny_video 10)
    = (Resolved frames md, r) /\
    StronglySorted Z.le (reported r) /\
    Forall (fun p => (0 <= p <= 100)%Z) (reported r) /\
    exists scoring,
      reported r = scoring ++ [100%Z] /\
      length scoring = segments * samplesPerSegment /\
      ~ In 100%Z scoring.
Proof.
  destruct (tiny_video_resolves 10) as [r Hr].
  exists (all_keyframes (tiny_video 10) 4 4 (10 / inject_Z (Z.of_nat segments))),
         (metadata_of sample_file nine_oh_five), r.
  split; [exact Hr|].
  exact (progress_monotone_and_ends_with_100 _ _ _ _ _ _ _ Hr).
Defined.


(** *** Duration zero *)

Lemma sample_time_zero sd s i : (sd == 0)%Q -> (sample_time sd s i == 0)%Q.
Proof. intros H. unfold sample_time. rewrite H. field. discriminate. Qed.

Lemma rejected_reasons file now dom v reason r :
  processVideo file now dom v = (Rejected reason, r) ->
  reason = "Video processing error"%string \/
  reason = "Canvas context unavailable"%string.
Proof.
  unfold processVideo. destruct (event v) as [d vw vh|].
  - destruct (analysis_size vw vh) as [w h].
    destruct (negb (captureCtx dom) || negb (analysisCtx dom)).
    + intros H. injection H as <- _. right. reflexivity.
    + destruct (forM _ _ _ _) as [[fr|] r1]; discriminate.
  - intros H. injection H as <- _. left. reflexivity.
Qed.

(** C7, as the code has it.  The duration is not checked.  When it is zero,
    both contexts exist, the analysis canvas is not empty and the seeks to
    position zero are answered, the run resolves: it returns 15 keyframes,
    all at time zero, after the 121 progress reports of any resolved run.
    A run is only ever rejected for a media error or a missing context. *)
Theorem zero_duration_run_resolves
  (file : File) (now : Clock) (dom : Canvases) (v : Video)
  (d : Q) (vw vh : nat) :
  event v = LoadedMetadata d vw vh ->
  (d == 0)%Q ->
  captureCtx dom = true -> analysisCtx dom = true ->
  fst (analysis_size vw vh) <> 0 -> snd (analysis_size vw vh) <> 0 ->
  (forall t, (t == 0)%Q -> seeked v t = true) ->
  (exists frames md r,
     processVideo file now dom v = (Resolved frames md, r) /\
     length frames = 15 /\
     Forall (fun k => (timestamp k == 0)%Q) frames /\
     reported r = scoring_reports ++ [100%Z]) /\
  (forall reason r,
     processVideo file now dom v = (Rejected reason, r) ->
     reason = "Video processing error"%string \/
     reason = "Canvas context unavailable"%string).
Proof.
  intros Hev Hd Hc Ha Hw Hh Hseek. split; [|apply rejected_reasons].
  set (w := fst (analysis_size vw vh)) in *. set (h := snd (analysis_size vw vh)) in *.
  set (sd := (d / inject_Z (Z.of_nat segments))%Q).
  assert (Hsd : (sd == 0)%Q) by (unfold sd; rewrite Hd; reflexivity).
  destruct (run_resolves file now dom v d vw vh Hev Hc Ha) as [r Hr].
  { apply segments_complete; [exact Hw|exact Hh|].
    intros s i. apply Hseek, sample_time_zero, Hsd. }
  fold w h sd in Hr. exists (all_keyframes v w h sd), (metadata_of file now), r.
  split; [exact Hr|].
  split; [apply all_keyframes_length|]. split.
  - apply Forall_forall. intros k Hk.
    apply list_elem_of_In in Hk. apply (proj1 (in_all_keyframes _ _ _ _ _)) in Hk.
    destruct Hk as (s & j & x & _ & Hx & ->). cbn [timestamp make_keyframe].
    apply (proj1 (top3_lookup _ _ _ _)) in Hx. destruct Hx as [_ Hx].
    assert (Hin : In x (segment_samples v w h sd s)).
    { eapply Permutation_in; [apply sort_perm|].
      apply list_elem_of_In, list_elem_of_lookup. exists j. exact Hx. }
    apply in_map_iff in Hin. destruct Hin as (i & <- & _).
    cbn [time sample_at]. apply sample_time_zero, Hsd.
  - apply run_resolved in Hr. destruct Hr as (? & ? & ? & _ & _ & _ & Hrep & _).
    exact Hrep.
Qed.

Lemma zero_duration_run_resolves_witness :
  event (tiny_video 0) = LoadedMetadata 0 4 4 /\
  (exists frames md r,
     processVideo sample_file nine_oh_five both_contexts (tiny_video 0)
     = (Resolved frames md, r) /\
     length frames = 15 /\
     Forall (fun k => (timestamp k == 0)%Q) frames /\
     reported r = scoring_reports ++ [100%Z]) /\
  (forall reason r,
     processVideo sample_file nine_oh_five both_contexts (tiny_video 0)
     = (Rejected reason, r) ->
     reason = "Video processing error"%string \/
     reason = "Canvas context unavailable"%string).
Proof.
  split; [reflexivity|].
  apply (zero_duration_run_resolves sample_file nine_oh_five both_contexts
           (tiny_video 0) 0 4 4 eq_refl).
  - reflexivity.
  - reflexivity.
  - reflexivity.
  - change (analysis_size 4 4) with (4, 4). discriminate.
  - change (analysis_size 4 4) with (4, 4). discriminate.
  - intros t _. reflexivity.
Defined.

(** C7, counterexample.  A video of duration zero is processed like any
    other: the run resolves with 15 keyframes and reports progress. *)
Lemma zero_duration_is_not_rejected :
  exists frames md r,
    processVideo sample_file nine_oh_five both_contexts (tiny_video 0)
    = (Resolved frames md, r) /\
    length frames = 15 /\
    length (reported r) = 121.
Proof.
  destruct (tiny_video_resolves 0) as [r Hr].
  eexists _, _, r. split; [exact Hr|].
  split; [apply all_keyframes_length|].
  apply run_resolved in Hr. destruct Hr as (? & ? & ? & _ & _ & _ & -> & _).
  rewrite length_app, scoring_reports_formula, length_map, length_seq. reflexivity.
Qed.

(** *** The object URL *)

Lemma url_revoked_when_resolved file now dom v frames md r :
  processVideo file now dom v = (Resolved frames md, r) ->
  objectUrlLive r = false.
Proof.
  intros Hrun. apply run_resolved in Hrun.
  destruct Hrun as (? & ? & ? & _ & _ & _ & _ & Hu). exact Hu.
Qed.

Lemma url_revoked_on_media_error file now dom v :
  event v = MediaError ->
  processVideo file now dom v
  = (Rejected "Video processing error",
     {| reported := []; objectUrlLive := false; currentTime := 0 |}).
Proof. intros Hev. unfold processVideo. rewrite Hev. reflexivity. Qed.

Lemma url_kept_without_context file now dom v d vw vh :
  event v = LoadedMetadata d vw vh ->
  captureCtx dom && analysisCtx dom = false ->
  processVideo file now dom v
  = (Rejected "Canvas context unavailable",
     {| reported := []; objectUrlLive := true; currentTime := 0 |}).
Proof.
  intros Hev Hctx. unfold processVideo. rewrite Hev.
  destruct (analysis_size vw vh) as [w h].
  destruct (captureCtx dom), (analysisCtx dom); try discriminate; reflexivity.
Qed.

(** C9.  When the analysis canvas yields no context the run is rejected
    with the object URL still alive, whereas a media error revokes it before
    the rejection. *)
Theorem context_failure_leaves_object_url_alive :
  processVideo sample_file nine_oh_five no_analysis_context (tiny_video 10)
  = (Rejected "Canvas context unavailable",
     {| reported := []; objectUrlLive := true; currentTime := 0 |}) /\
  processVideo sample_file nine_oh_five both_contexts broken_video
  = (Rejected "Video processing error",
     {| reported := []; objectUrlLive := false; currentTime := 0 |}).
Proof.
  split.
  - apply (url_kept_without_context _ _ _ _ 10 4 4); reflexivity.
  - apply url_revoked_on_media_error. reflexivity.
Qed.

End PipelineFacts.

(** ** The labelling service *)

Module LabelingFacts.

Import Pipeline Labeling.

(** C10, as the code has it.  When the request for a frame fails, the
    returned keyframe keeps the description and every other field of the
    input, and its label is replaced by ["Frame n"], [n] being the position
    of the frame counted from 1. *)
Theorem failed_request_relabels_frame
  (service : nat -> Keyframe -> Reply) (frames : list Keyframe)
  (index : nat) (frame : Keyframe) :
  frames !! index = Some frame ->
  service index frame = Throws ->
  analyzeFrames service frames !! index
  = Some {| id := id frame; dataUrl := dataUrl frame;
            processedUrl := processedUrl frame;
            timestamp := timestamp frame; score := score frame;
            label := Some (String.append "Frame " (pretty (index + 1)));
            aiDescription := aiDescription frame;
            partId := partId frame; rankId := rankId frame |}.
Proof.
  intros Hf Hs. unfold analyzeFrames.
  rewrite list_lookup_imap, Hf. cbn [fmap option_fmap option_map].
  unfold analyzeFrame. rewrite Hs. reflexivity.
Qed.

Lemma failed_request_relabels_frame_witness :
  [labelled_frame] !! 0 = Some labelled_frame /\
  failing_service 0 labelled_frame = Throws /\
  analyzeFrames failing_service [labelled_frame] !! 0
  = Some {| id := id labelled_frame; dataUrl := dataUrl labelled_frame;
            processedUrl := processedUrl labelled_frame;
            timestamp := timestamp labelled_frame;
            score := score labelled_frame;
            label := Some (String.append "Frame " (pretty (0 + 1)));
            aiDescription := aiDescription labelled_frame;
            partId := partId labelled_frame; rankId := rankId labelled_frame |}.
Proof.
  exact (conj eq_refl (conj eq_refl
           (failed_request_relabels_frame failing_service [labelled_frame] 0
              labelled_frame eq_refl eq_refl))).
Defined.

(** C10, counterexample.  A labelled frame whose request fails comes back
    with the label ["Frame 1"] instead of its own. *)
Lemma failed_request_changes_label :
  exists out,
    analyzeFrames failing_service [labelled_frame] = [out] /\
    label out = Some "Frame 1"%string /\
    label out <> label labelled_frame /\
    aiDescription out = aiDescription labelled_frame.
Proof.
  eexists. split; [vm_compute; reflexivity|].
  split; [reflexivity|]. split; [discriminate|reflexivity].
Qed.

End LabelingFacts.

(** ** More on the sharpness score *)

Module SharpnessMore.

Import Sharpness Loops SharpnessFacts.






(** The grey-scale array is fixed by the colour bytes. *)
Lemma grayscale_of_colour_bytes (img img' : ImageData) :
  width img = width img' -> height img = height img' ->
  length (data img) = length (data img') ->
  (forall i, i mod 4 <> 3 -> data img !! i = data img' !! i) ->
  grayscale_of img = grayscale_of img'.
Proof.
  intros Hw Hh Hl Hd. unfold grayscale_of. rewrite Hw, Hh, Hl.
  apply fold_left_ext_in. intros g k _. unfold gray_step, gray_value, byte_at.
  rewrite !Hd; [reflexivity| | |].
  - replace (4 * k + 2) with (2 + k * 4) by lia. rewrite Nat.Div0.mod_add. cbn. lia.
  - replace (4 * k + 1) with (1 + k * 4) by lia. rewrite Nat.Div0.mod_add. cbn. lia.
  - replace (4 * k) with (0 + k * 4) by lia. rewrite Nat.Div0.mod_add. cbn. lia.
Qed.

(** X2.  The score does not read the opacity: two frames of the same size
    that agree on every red, green and blue byte have the same score. *)
Theorem score_ignores_alpha (img img' : ImageData) :
  width img = width img' -> height img = height img' ->
  length (data img) = length (data img') ->
  (forall i, i mod 4 <> 3 -> data img !! i = data img' !! i) ->
  calculateLaplacianVariance img = calculateLaplacianVariance img'.
Proof.
  intros Hw Hh Hl Hd. unfold calculateLaplacianVariance.
  rewrite (grayscale_of_colour_bytes img img' Hw Hh Hl Hd), Hw, Hh. reflexivity.
Qed.


Lemma with_alpha_colour_bytes a img i :
  i mod 4 <> 3 -> data (with_alpha a img) !! i = data img !! i.
Proof.
  intros Hi. unfold with_alpha. cbn [data]. rewrite list_lookup_imap.
  destruct (data img !! i) as [v|]; [|reflexivity].
  cbn [fmap option_fmap option_map].
  apply Nat.eqb_neq in Hi. rewrite Hi. reflexivity.
Qed.

Lemma score_ignores_alpha_witness :
  width (with_alpha 7 frame_4x4) = width frame_4x4 /\
  data (with_alpha 7 frame_4x4) <> data frame_4x4 /\
  calculateLaplacianVariance (with_alpha 7 frame_4x4)
  = calculateLaplacianVariance frame_4x4.
Proof.
  split; [reflexivity|]. split; [discriminate|].
  apply (score_ignores_alpha (with_alpha 7 frame_4x4) frame_4x4 eq_refl eq_refl eq_refl).
  intros i Hi. apply with_alpha_colour_bytes, Hi.
Defined.

Lemma filter_all_zero (l : list Q) :
  Forall (fun v => (v == 0)%Q) l ->
  List.filter (fun v => negb (Qeq_bool v 0)) l = [].
Proof.
  induction 1 as [|v l Hv _ IH]; cbn [List.filter]; [reflexivity|].
  apply Qeq_bool_iff in Hv. rewrite Hv. exact IH.
Qed.

(** X3.  A frame of one colour, with at least one interior pixel, has the
    score zero: every Laplacian value is zero and is filtered out. *)
Theorem uniform_frame_scores_zero (img : ImageData) :
  well_formed img ->
  0 < interiorPixelCount img ->
  (forall x y c, x < width img -> y < height img -> c < 3 ->
     channel img x y c = channel img 0 0 c) ->
  exists q, calculateLaplacianVariance img = Num q /\ (q == 0)%Q.
Proof.
  intros Hwf Hpos Hflat. exists (sharpness_reference img). split.
  - rewrite interior_length in Hpos. apply score_with_interior; [exact Hwf| |]; nia.
  - unfold sharpness_reference. rewrite filter_all_zero.
    + unfold Qdiv. cbn [map Qsum fold_left]. apply Qmult_0_l.
    + apply Forall_forall. intros v Hv.
      apply list_elem_of_In, in_map_iff in Hv. destruct Hv as ([x y] & <- & Hp).
      apply interior_elem in Hp. cbn [fst snd] in Hp.
      assert (Hl : forall x' y', x' < width img -> y' < height img ->
                luminance img x' y' = luminance img 0 0).
      { intros x' y' Hx' Hy'. unfold luminance.
        rewrite !(Hflat x' y') by lia. reflexivity. }
      cbn beta. unfold laplacian_at.
      rewrite (Hl x y), (Hl (x - 1) y), (Hl (x + 1) y), (Hl x (y - 1)),
        (Hl x (y + 1)) by lia.
      ring.
Qed.

Lemma uniform_frame_scores_zero_witness :
  well_formed flat_4x4 /\ 0 < interiorPixelCount flat_4x4 /\
  exists q, calculateLaplacianVariance flat_4x4 = Num q /\ (q == 0)%Q.
Proof.
  assert (Hwf : well_formed flat_4x4) by reflexivity.
  assert (Hpos : 0 < interiorPixelCount flat_4x4) by (vm_compute; lia).
  split; [exact Hwf|]. split; [exact Hpos|].
  apply (uniform_frame_scores_zero flat_4x4 Hwf Hpos).
  intros x y c Hx Hy Hc. cbn in Hx, Hy.
  do 4 (destruct x as [|x];
        [do 4 (destruct y as [|y];
               [do 3 (destruct c as [|c]; [reflexivity|]); lia|]); lia|]).
  lia.
Defined.

End SharpnessMore.

(** ** More on the fingerprint *)

Module FingerprintMore.

Import Fingerprint FingerprintFacts.
Local Open Scope Z_scope.

Lemma to_int32_range (x : Z) : - 2 ^ 31 <= to_int32 x < 2 ^ 31.
Proof.
  unfold to_int32.
  pose proof (Z.mod_pos_bound (x + 2 ^ 31) (2 ^ 32) eq_refl). lia.
Qed.

Lemma to_int32_congr (x y : Z) :
  x mod 2 ^ 32 = y mod 2 ^ 32 -> to_int32 x = to_int32 y.
Proof.
  intros H. unfold to_int32.
  rewrite (Zplus_mod x), (Zplus_mod y), H. reflexivity.
Qed.

Lemma to_int32_mod (x : Z) : to_int32 x mod 2 ^ 32 = x mod 2 ^ 32.
Proof.
  unfold to_int32.
  rewrite Zminus_mod, Zmod_mod, <- Zminus_mod.
  f_equal. lia.
Qed.

(** One step: shifting by five and subtracting is multiplying by 31. *)
Lemma hash_step_poly (h p c : Z) :
  h mod 2 ^ 32 = p mod 2 ^ 32 ->
  hash_step h c mod 2 ^ 32 = (31 * p + c) mod 2 ^ 32.
Proof.
  intros H. unfold hash_step. rewrite to_int32_mod, Z.shiftl_mul_pow2 by lia.
  rewrite Zplus_mod, Zminus_mod, to_int32_mod.
  rewrite <- Zminus_mod, <- Zplus_mod.
  replace (h * 2 ^ 5 - h + c) with (31 * h + c) by lia.
  rewrite Zplus_mod, Zmult_mod, H, <- Zmult_mod, <- Zplus_mod. reflexivity.
Qed.

Lemma hash_fold_poly (str : list Z) : forall h p,
  h mod 2 ^ 32 = p mod 2 ^ 32 ->
  fold_left hash_step str h mod 2 ^ 32
  = fold_left (fun h c => 31 * h + c) str p mod 2 ^ 32.
Proof.
  induction str as [|c str IH]; intros h p H; cbn [fold_left]; [exact H|].
  apply IH, hash_step_poly, H.
Qed.

Lemma hash_fold_range (str : list Z) : forall h,
  - 2 ^ 31 <= h < 2 ^ 31 -> - 2 ^ 31 <= fold_left hash_step str h < 2 ^ 31.
Proof.
  induction str as [|c str IH]; intros h H; cbn [fold_left]; [exact H|].
  apply IH. unfold hash_step. apply to_int32_range.
Qed.

Lemma to_int32_id (x : Z) : - 2 ^ 31 <= x < 2 ^ 31 -> to_int32 x = x.
Proof. intros H. unfold to_int32. rewrite Z.mod_small; lia. Qed.

(** X4.  The hash of a string is the polynomial [c0 * 31^(n-1) + ... +
    c(n-1)] of its code units wrapped to a signed 32-bit integer, so it
    lies between [-2^31] and [2^31 - 1]. *)
Theorem hash_is_wrapped_polynomial (str : list Z) :
  hash_of str = to_int32 (poly31 str) /\
  - 2 ^ 31 <= hash_of str < 2 ^ 31.
Proof.
  assert (Hr : - 2 ^ 31 <= hash_of str < 2 ^ 31)
    by (apply hash_fold_range; lia).
  split; [|exact Hr].
  rewrite <- (to_int32_id (hash_of str) Hr).
  apply to_int32_congr, hash_fold_poly. reflexivity.
Qed.

End FingerprintMore.

(** ** More on the runs of the orchestrator *)

Module PipelineMore.

Import Sharpness Fingerprint Pipeline PipelineFacts.

(** *** When a run resolves *)






(** *** Runs that do not resolve *)



Lemma forM_first {A I} (body : A -> I -> Task A) i l a r :
  forM body (i :: l) a r
  = match body a i r with
    | (Some a', r') => forM body l a' r'
    | (None, r') => (None, r')
    end.
Proof. reflexivity. Qed.

Section Growth.
Context {A I : Type}.
Variable body : A -> I -> Task A.

Hypothesis body_mono : forall a i r,
  length (reported r) <= length (reported (snd (body a i r))).

Lemma forM_mono l : forall a r,
  length (reported r) <= length (reported (snd (forM body l a r))).
Proof.
  induction l as [|i l IH]; intros a r; [cbn; lia|].
  rewrite forM_first. pose proof (body_mono a i r) as Hb.
  destruct (body a i r) as [[a'|] r1]; cbn [snd] in *; [|exact Hb].
  etransitivity; [exact Hb|apply IH].
Qed.

Hypothesis body_grows : forall a i r,
  length (reported r) < length (reported (snd (body a i r))).

Lemma forM_grows i l a r :
  length (reported r) < length (reported (snd (forM body (i :: l) a r))).
Proof.
  rewrite forM_first. pose proof (body_grows a i r) as Hb.
  destruct (body a i r) as [[a'|] r1]; cbn [snd] in *; [|exact Hb].
  eapply Nat.lt_le_trans; [exact Hb|apply forM_mono].
Qed.
End Growth.

Lemma score_sample_reports v w h sd s acc i r :
  reported (snd (score_sample v w h sd s acc i r))
  = reported r ++ [progress_at s i].
Proof.
  unfold score_sample, bind, onProgress, seek, getImageData, ret.
  cbn [reported objectUrlLive currentTime].
  destruct (seeked v (sample_time sd s i)); [|reflexivity].
  destruct ((w =? 0) || (h =? 0)); reflexivity.
Qed.

Lemma capture_frame_mono v s top acc j r :
  length (reported r) <= length (reported (snd (capture_frame v s top acc j r))).
Proof.
  destruct (capture_frame_spec v s top acc j r) as (_ & _ & q & -> & _).
  rewrite length_app. lia.
Qed.

Lemma process_segment_grows v w h sd acc s r :
  length (reported r) < length (reported (snd (process_segment v w h sd acc s r))).
Proof.
  unfold process_segment, bind.
  assert (Hsc : length (reported r)
                < length (reported (snd (forM (score_sample v w h sd s)
                                           (seq 0 samplesPerSegment) [] r)))).
  { apply (forM_grows (score_sample v w h sd s)).
    - intros a i r'. rewrite score_sample_reports, length_app. cbn. lia.
    - intros a i r'. rewrite score_sample_reports, length_app. cbn. lia. }
  destruct (forM (score_sample v w h sd s) (seq 0 samplesPerSegment) [] r)
    as [[smps|] r1]; cbn [snd] in *; [|exact Hsc].
  eapply Nat.lt_le_trans; [exact Hsc|].
  apply forM_mono. intros a j r'. apply capture_frame_mono.
Qed.

Lemma scoring_reports_head : exists rest, scoring_reports = 0%Z :: rest.
Proof. eexists. vm_compute. reflexivity. Qed.

(** X7.  A run that stays pending, because a seek is not answered or the
    analysis canvas is empty, has not revoked the object URL; it has
    reported progress, starting with 0, and every value it has reported is
    below 80. *)
Theorem pending_run_keeps_object_url
  (file : File) (now : Clock) (dom : Canvases) (v : Video) (r : Run) :
  processVideo file now dom v = (Pending, r) ->
  objectUrlLive r = true /\
  (exists rest, reported r = 0%Z :: rest) /\
  Forall (fun p => (0 <= p < 80)%Z) (reported r).
Proof.
  unfold processVideo. destruct (event v) as [d vw vh|]; [|discriminate].
  destruct (analysis_size vw vh) as [w h].
  destruct (negb (captureCtx dom) || negb (analysisCtx dom)); [discriminate|].
  set (r0 := {| reported := []; objectUrlLive := true; currentTime := 0 |}).
  set (sd := (d / inject_Z (Z.of_nat segments))%Q).
  destruct (segments_spec v w h sd r0) as (_ & Hu & q & Hq & Hpre & _).
  assert (Hgrow : length (reported r0)
                  < length (reported (snd (forM (process_segment v w h sd)
                                             (seq 0 segments) [] r0)))).
  { apply (forM_grows (process_segment v w h sd)).
    - intros a s r'. apply Nat.lt_le_incl, process_segment_grows.
    - intros a s r'. apply process_segment_grows. }
  destruct (forM (process_segment v w h sd) (seq 0 segments) [] r0)
    as [[fr|] r1]; cbn [fst snd] in *; [discriminate|].
  intros H. injection H as <-. cbn [app] in Hq.
  split; [exact Hu|]. rewrite Hq in Hgrow |- *. split.
  - destruct q as [|x q]; [cbn in Hgrow; lia|].
    destruct scoring_reports_head as [rest Hrest].
    destruct Hpre as [k Hk]. rewrite Hrest in Hk. injection Hk as <- _.
    exists q. reflexivity.
  - destruct Hpre as [k Hk]. pose proof scoring_reports_below_80 as Hb.
    rewrite Hk in Hb. apply Forall_app in Hb. tauto.
Qed.

Lemma pending_run_keeps_object_url_witness :
  exists r,
    processVideo sample_file nine_oh_five both_contexts frozen_video
    = (Pending, r) /\
    objectUrlLive r = true /\
    (exists rest, reported r = 0%Z :: rest) /\
    Forall (fun p => (0 <= p < 80)%Z) (reported r).
Proof.
  eexists. split; [vm_compute; reflexivity|].
  apply (pending_run_keeps_object_url sample_file nine_oh_five both_contexts
           frozen_video).
  vm_compute. reflexivity.
Defined.

(** X8.  When the analysis canvas is empty (a video whose scaled width or
    height is zero, such as a file without a picture), the run reports 0
    once and then stays pending, with the object URL alive. *)
Theorem empty_canvas_run_stays_pending
  (file : File) (now : Clock) (dom : Canvases) (v : Video)
  (d : Q) (vw vh : nat) :
  event v = LoadedMetadata d vw vh ->
  captureCtx dom = true -> analysisCtx dom = true ->
  fst (analysis_size vw vh) = 0 \/ snd (analysis_size vw vh) = 0 ->
  exists r,
    processVideo file now dom v = (Pending, r) /\
    reported r = [0%Z] /\
    objectUrlLive r = true.
Proof.
  intros Hev Hc Ha Hz. unfold processVideo. rewrite Hev, Hc, Ha.
  destruct (analysis_size vw vh) as [w h]. cbn [fst snd negb orb] in *.
  assert (Hcond : (w =? 0) || (h =? 0) = true).
  { destruct Hz as [-> | ->]; [reflexivity|apply orb_true_r]. }
  change (seq 0 segments) with (0 :: seq 1 4). rewrite forM_first.
  unfold process_segment at 1. unfold bind at 1.
  change (seq 0 samplesPerSegment) with (0 :: seq 1 23). rewrite forM_first.
  unfold score_sample at 1.
  unfold bind, onProgress, seek, getImageData. cbn [reported objectUrlLive currentTime].
  rewrite Hcond.
  destruct (seeked v _); eexists; (split; [reflexivity|]); split; reflexivity.
Qed.

Lemma empty_canvas_run_stays_pending_witness :
  event audio_only = LoadedMetadata 10 0 0 /\
  (fst (analysis_size 0 0) = 0 \/ snd (analysis_size 0 0) = 0) /\
  exists r,
    processVideo sample_file nine_oh_five both_contexts audio_only
    = (Pending, r) /\
    reported r = [0%Z] /\
    objectUrlLive r = true.
Proof.
  assert (Hz : fst (analysis_size 0 0) = 0 \/ snd (analysis_size 0 0) = 0)
    by (left; reflexivity).
  exact (conj eq_refl (conj Hz
           (empty_canvas_run_stays_pending sample_file nine_oh_five both_contexts
              audio_only 10 0 0 eq_refl eq_refl eq_refl Hz))).
Defined.


(** *** The keyframes of a resolved run *)

Lemma resolved_keyframe v w h sd k :
  In k (all_keyframes v w h sd) ->
  exists s j i,
    s < segments /\ j < 3 /\ i < samplesPerSegment /\
    k = make_keyframe s j (sample_at v w h sd s i)
          (jpeg v (sample_time sd s i)).
Proof.
  intros Hk. apply (proj1 (in_all_keyframes _ _ _ _ _)) in Hk.
  destruct Hk as (s & j & x & Hs & Hx & ->).
  apply (proj1 (top3_lookup _ _ _ _)) in Hx. destruct Hx as [Hj Hx].
  assert (Hin : In x (segment_samples v w h sd s)).
  { eapply Permutation_in; [apply sort_perm|].
    apply list_elem_of_In, list_elem_of_lookup. exists j. exact Hx. }
  apply in_map_iff in Hin. destruct Hin as (i & <- & Hi). apply in_seq in Hi.
  exists s, j, i. repeat split; try lia. 
Qed.

Lemma sample_time_in_segment sd s i :
  (0 < sd)%Q -> i < samplesPerSegment ->
  (inject_Z (Z.of_nat s) * sd <= sample_time sd s i)%Q /\
  (sample_time sd s i < inject_Z (Z.of_nat (s + 1)) * sd)%Q.
Proof.
  intros Hsd Hi. unfold sample_time.
  rewrite Nat2Z.inj_add, inject_Z_plus.
  change (inject_Z (Z.of_nat samplesPerSegment)) with 24%Q.
  change (inject_Z (Z.of_nat 1)) with 1%Q.
  assert (H0 : (0 <= inject_Z (Z.of_nat i))%Q) by (apply (inject_nat_le 0 i); lia).
  assert (H23 : (inject_Z (Z.of_nat i) <= 23)%Q)
    by (apply (inject_nat_le i 23); unfold samplesPerSegment in Hi; lia).
  set (I := inject_Z (Z.of_nat i)) in *. set (J := inject_Z (Z.of_nat s)) in *.
  assert (Hq : (I * (sd / 24) == (I * sd) / 24)%Q) by (field; discriminate).
  assert (Hs1 : ((J + 1) * sd == J * sd + sd)%Q) by ring.
  rewrite Hq, Hs1.
  assert (HX0 : (0 <= I * sd)%Q) by (apply Qmult_le_0_compat; [exact H0|lra]).
  assert (HX1 : (I * sd <= 23 * sd)%Q) by (apply Qmult_le_compat_r; [exact H23|lra]).
  set (X := (I * sd)%Q) in *. set (Y := (J * sd)%Q) in *.
  clearbody X Y. unfold Qdiv. change (/ 24)%Q with (1 # 24)%Q. split; lra.
Qed.

(** X9.  In a resolved run of a video of positive duration, the time of
    every keyframe lies in the segment the keyframe is numbered with, from
    the start of the segment up to but not including its end, and so
    within the video. *)
Theorem keyframe_time_in_its_segment
  (file : File) (now : Clock) (dom : Canvases) (v : Video)
  (frames : list Keyframe) (md : ProcessingMetadata) (r : Run)
  (d : Q) (vw vh : nat) (k : Keyframe) :
  processVideo file now dom v = (Resolved frames md, r) ->
  event v = LoadedMetadata d vw vh ->
  (0 < d)%Q ->
  In k frames ->
  (inject_Z (Z.of_nat (partId k - 1)) * (d / 5) <= timestamp k)%Q /\
  (timestamp k < inject_Z (Z.of_nat (partId k)) * (d / 5))%Q /\
  (0 <= timestamp k)%Q /\ (timestamp k < d)%Q.
Proof.
  intros Hrun Hev Hd Hk. apply run_resolved in Hrun.
  destruct Hrun as (d' & vw' & vh' & Hev' & -> & _).
  rewrite Hev in Hev'. injection Hev' as <- <- <-.
  apply resolved_keyframe in Hk. destruct Hk as (s & j & i & Hs & _ & Hi & ->).
  cbn [partId timestamp make_keyframe time sample_at].
  replace (s + 1 - 1) with s by lia.
  change (inject_Z (Z.of_nat segments)) with 5%Q.
  assert (Hsd : (0 < d / 5)%Q) by (apply Qlt_shift_div_l; [reflexivity|lra]).
  destruct (sample_time_in_segment (d / 5) s i Hsd Hi) as [Hlo Hhi].
  assert (H0 : (0 <= inject_Z (Z.of_nat s))%Q) by (apply (inject_nat_le 0 s); lia).
  assert (H5 : (inject_Z (Z.of_nat (s + 1)) <= 5)%Q)
    by (apply (inject_nat_le (s + 1) 5); unfold segments in Hs; lia).
  assert (0 <= inject_Z (Z.of_nat s) * (d / 5))%Q
    by (apply Qmult_le_0_compat; [exact H0|lra]).
  assert (inject_Z (Z.of_nat (s + 1)) * (d / 5) <= 5 * (d / 5))%Q
    by (apply Qmult_le_compat_r; [exact H5|lra]).
  assert (5 * (d / 5) == d)%Q by (field; discriminate).
  repeat split; lra.
Qed.

Lemma keyframe_time_in_its_segment_witness :
  exists frames md r k,
    processVideo sample_file nine_oh_five both_contexts (tiny_video 10)
    = (Resolved frames md, r) /\
    (0 < 10)%Q /\ In k frames /\
    (inject_Z (Z.of_nat (partId k - 1)) * (10 / 5) <= timestamp k)%Q /\
    (timestamp k < inject_Z (Z.of_nat (partId k)) * (10 / 5))%Q /\
    (0 <= timestamp k)%Q /\ (timestamp k < 10)%Q.
Proof.
  destruct (tiny_video_resolves 10) as [r Hr].
  assert (Hd : (0 < 10)%Q) by reflexivity.
  set (sd := (10 / inject_Z (Z.of_nat segments))%Q) in *.
  destruct (lookup_lt_is_Some_2 (top3 (segment_samples (tiny_video 10) 4 4 sd 0)) 0)
    as [x Hx]; [rewrite top3_length; lia|].
  set (k := make_keyframe 0 0 x (jpeg (tiny_video 10) (time x))).
  assert (Hk : In k (all_keyframes (tiny_video 10) 4 4 sd)).
  { apply (proj2 (in_all_keyframes _ _ _ _ _)). exists 0, 0, x.
    split; [unfold segments; lia|]. split; [exact Hx|exact eq_refl]. }
  exists (all_keyframes (tiny_video 10) 4 4 sd),
         (metadata_of sample_file nine_oh_five), r, k.
  split; [exact Hr|]. split; [exact Hd|]. split; [exact Hk|].
  exact (keyframe_time_in_its_segment _ _ _ _ _ _ _ 10 4 4 k Hr eq_refl Hd Hk).
Defined.

(** Different samples are taken at different times. *)
Lemma sample_time_inj sd s i s' i' :
  (0 < sd)%Q -> i < samplesPerSegment -> i' < samplesPerSegment ->
  (sample_time sd s i == sample_time sd s' i')%Q -> s = s' /\ i = i'.
Proof.
  intros Hsd Hi Hi' Heq.
  assert (Hseg : forall a b x y, x < samplesPerSegment -> y < samplesPerSegment ->
            a < b -> (sample_time sd a x < sample_time sd b y)%Q).
  { intros a b x y Hx Hy Hab.
    destruct (sample_time_in_segment sd a x Hsd Hx) as [_ Hhi].
    destruct (sample_time_in_segment sd b y Hsd Hy) as [Hlo _].
    assert (Hle : (inject_Z (Z.of_nat (a + 1)) * sd <= inject_Z (Z.of_nat b) * sd)%Q).
    { apply Qmult_le_compat_r; [apply inject_nat_le; lia|lra]. }
    lra. }
  assert (Hs : s = s').
  { destruct (Nat.lt_trichotomy s s') as [H|[H|H]]; [|exact H|].
    - pose proof (Hseg s s' i i' Hi Hi' H). lra.
    - pose proof (Hseg s' s i' i Hi' Hi H). lra. }
  subst s'. split; [reflexivity|].
  unfold sample_time in Heq.
  change (inject_Z (Z.of_nat samplesPerSegment)) with 24%Q in Heq.
  assert (Hstep : ~ (sd / 24 == 0)%Q).
  { assert (0 < sd / 24)%Q by (apply Qlt_shift_div_l; [reflexivity|lra]). lra. }
  apply (proj1 (Qplus_inj_l _ _ _)) in Heq.
  apply (proj1 (Qmult_inj_r _ _ _ Hstep)) in Heq.
  apply (proj1 (inject_Z_injective _ _)) in Heq. lia.
Qed.

Lemma sorted_samples_distinct v w h sd s p q x y :
  (0 < sd)%Q ->
  sort by_score (segment_samples v w h sd s) !! p = Some x ->
  sort by_score (segment_samples v w h sd s) !! q = Some y ->
  (time x == time y)%Q -> p = q.
Proof.
  intros Hsd Hp Hq Heq.
  assert (Hnd : NoDup (sort by_score (segment_samples v w h sd s))).
  { rewrite sort_perm. unfold segment_samples. apply NoDup_fmap_2_strong; [|apply NoDup_seq].
    intros a b Ha Hb Hab. apply elem_of_seq in Ha, Hb.
    assert (Ht : (time (sample_at v w h sd s a) == time (sample_at v w h sd s b))%Q)
      by (rewrite Hab; reflexivity).
    apply (sample_time_inj sd s a s b Hsd) in Ht;
      [tauto|unfold samplesPerSegment in *; lia..]. }
  assert (Hin : forall n z, sort by_score (segment_samples v w h sd s) !! n = Some z ->
            exists a, a < samplesPerSegment /\ z = sample_at v w h sd s a).
  { intros n z Hz.
    assert (Hz' : In z (segment_samples v w h sd s)).
    { eapply Permutation_in; [apply sort_perm|].
      apply list_elem_of_In, list_elem_of_lookup. exists n. exact Hz. }
    apply in_map_iff in Hz'. destruct Hz' as (a & <- & Ha). apply in_seq in Ha.
    exists a. split; [lia|reflexivity]. }
  destruct (Hin p x Hp) as (a & Ha & ->). destruct (Hin q y Hq) as (b & Hb & ->).
  apply (sample_time_inj sd s a s b Hsd Ha Hb) in Heq. destruct Heq as [_ ->].
  apply (NoDup_lookup _ p q _ Hnd Hp Hq).
Qed.

(** X10.  In a resolved run of a video of positive duration the 15
    keyframes are taken at 15 different times: keyframes at different
    places of the result have different times. *)
Theorem keyframes_are_distinct_moments
  (file : File) (now : Clock) (dom : Canvases) (v : Video)
  (frames : list Keyframe) (md : ProcessingMetadata) (r : Run)
  (d : Q) (vw vh : nat) (i j : nat) (k1 k2 : Keyframe) :
  processVideo file now dom v = (Resolved frames md, r) ->
  event v = LoadedMetadata d vw vh ->
  (0 < d)%Q ->
  frames !! i = Some k1 -> frames !! j = Some k2 ->
  i <> j ->
  ~ (timestamp k1 == timestamp k2)%Q.
Proof.
  intros Hrun Hev Hd H1 H2 Hne Heq. apply Hne. apply run_resolved in Hrun.
  destruct Hrun as (d' & vw' & vh' & Hev' & -> & _).
  rewrite Hev in Hev'. injection Hev' as <- <- <-.
  set (w := fst _) in *. set (h := snd _) in *.
  change (inject_Z (Z.of_nat segments)) with 5%Q in *.
  assert (Hsd : (0 < d / 5)%Q) by (apply Qlt_shift_div_l; [reflexivity|lra]).
  assert (Hpairs : forall n k, all_keyframes v w h (d / 5) !! n = Some k ->
            map (fun k => (partId k, rankId k)) (all_keyframes v w h (d / 5)) !! n
            = Some (partId k, rankId k)).
  { intros n k Hk. rewrite list_lookup_fmap, Hk. reflexivity. }
  assert (Hnd : NoDup (map (fun k => (partId k, rankId k))
                         (all_keyframes v w h (d / 5)))).
  { rewrite all_keyframes_ranks. apply (bool_decide_unpack _). vm_compute. exact I. }
  assert (Hsame : (partId k1, rankId k1) = (partId k2, rankId k2)).
  { assert (In1 : In k1 (all_keyframes v w h (d / 5)))
      by (apply list_elem_of_In, list_elem_of_lookup; exists i; exact H1).
    assert (In2 : In k2 (all_keyframes v w h (d / 5)))
      by (apply list_elem_of_In, list_elem_of_lookup; exists j; exact H2).
    apply (proj1 (in_all_keyframes _ _ _ _ _)) in In1, In2.
    destruct In1 as (s1 & j1 & x1 & Hs1 & Hx1 & ->).
    destruct In2 as (s2 & j2 & x2 & Hs2 & Hx2 & ->).
    cbn [timestamp make_keyframe partId rankId] in *.
    apply (proj1 (top3_lookup _ _ _ _)) in Hx1, Hx2.
    destruct Hx1 as [_ Hx1]. destruct Hx2 as [_ Hx2].
    assert (Hin : forall s n z,
              sort by_score (segment_samples v w h (d / 5) s) !! n = Some z ->
              exists a, a < samplesPerSegment /\ z = sample_at v w h (d / 5) s a).
    { intros s n z Hz.
      assert (Hz' : In z (segment_samples v w h (d / 5) s)).
      { eapply Permutation_in; [apply sort_perm|].
        apply list_elem_of_In, list_elem_of_lookup. exists n. exact Hz. }
      apply in_map_iff in Hz'. destruct Hz' as (a & <- & Ha). apply in_seq in Ha.
      exists a. split; [lia|reflexivity]. }
    destruct (Hin s1 j1 x1 Hx1) as (a & Ha & E1).
    destruct (Hin s2 j2 x2 Hx2) as (b & Hb & E2).
    assert (Hs : s1 = s2).
    { rewrite E1, E2 in Heq. cbn [time sample_at] in Heq.
      apply (sample_time_inj (d / 5) s1 a s2 b Hsd Ha Hb) in Heq. tauto. }
    subst s2.
    rewrite (sorted_samples_distinct v w h (d / 5) s1 j1 j2 x1 x2 Hsd Hx1 Hx2 Heq).
    reflexivity. }
  apply (NoDup_lookup _ i j _ Hnd (Hpairs i k1 H1)).
  rewrite Hsame. apply (Hpairs j k2 H2).
Qed.

Lemma keyframes_are_distinct_moments_witness :
  exists frames md r k1 k2,
    processVideo sample_file nine_oh_five both_contexts (tiny_video 10)
    = (Resolved frames md, r) /\
    frames !! 0 = Some k1 /\ frames !! 1 = Some k2 /\
    ~ (timestamp k1 == timestamp k2)%Q.
Proof.
  destruct (tiny_video_resolves 10) as [r Hr].
  set (sd := (10 / inject_Z (Z.of_nat segments))%Q) in *.
  destruct (lookup_lt_is_Some_2 (all_keyframes (tiny_video 10) 4 4 sd) 0)
    as [k1 Hk1]; [rewrite all_keyframes_length; unfold segments; lia|].
  destruct (lookup_lt_is_Some_2 (all_keyframes (tiny_video 10) 4 4 sd) 1)
    as [k2 Hk2]; [rewrite all_keyframes_length; unfold segments; lia|].
  assert (Hd : (0 < 10)%Q) by reflexivity.
  assert (Hne : 0 <> 1) by discriminate.
  exists (all_keyframes (tiny_video 10) 4 4 sd),
         (metadata_of sample_file nine_oh_five), r, k1, k2.
  split; [exact Hr|]. split; [exact Hk1|]. split; [exact Hk2|].
  exact (keyframes_are_distinct_moments _ _ _ _ _ _ _ 10 4 4 0 1 k1 k2
           Hr eq_refl Hd Hk1 Hk2 Hne).
Defined.

Lemma segment_contents v w h sd s :
  Forall (fun k => dataUrl k = jpeg v (timestamp k) /\ label k = None /\
                   aiDescription k = None /\ processedUrl k = None)
         (segment_keyframes v w h sd s) /\
  map id (segment_keyframes v w h sd s)
  = map (fun j => String.append "p" (String.append (pretty (s + 1))
                    (String.append "_r" (pretty j)))) (seq 1 3).
Proof.
  unfold segment_keyframes. assert (Hl := top3_length v w h sd s).
  destruct (top3 (segment_samples v w h sd s)) as [|a [|b [|c [|e l]]]];
    try discriminate.
  split; [|reflexivity].
  repeat constructor.
Qed.

(** X11.  In a resolved run every keyframe holds the capture taken at its
    own time, and carries no label, description or processed image; the
    identifiers are [p1_r1], [p1_r2], [p1_r3], [p2_r1], ..., [p5_r3], all
    different. *)
Theorem keyframes_hold_their_capture_and_distinct_ids
  (file : File) (now : Clock) (dom : Canvases) (v : Video)
  (frames : list Keyframe) (md : ProcessingMetadata) (r : Run) :
  processVideo file now dom v = (Resolved frames md, r) ->
  Forall (fun k => dataUrl k = jpeg v (timestamp k) /\ label k = None /\
                   aiDescription k = None /\ processedUrl k = None) frames /\
  map id frames
  = ["p1_r1"; "p1_r2"; "p1_r3"; "p2_r1"; "p2_r2"; "p2_r3"; "p3_r1"; "p3_r2";
     "p3_r3"; "p4_r1"; "p4_r2"; "p4_r3"; "p5_r1"; "p5_r2"; "p5_r3"]%string /\
  NoDup (map id frames).
Proof.
  intros Hrun. apply run_resolved in Hrun.
  destruct Hrun as (d & vw & vh & _ & -> & _).
  set (w := fst _). set (h := snd _). set (sd := (d / _)%Q).
  assert (Hids : map id (all_keyframes v w h sd)
    = ["p1_r1"; "p1_r2"; "p1_r3"; "p2_r1"; "p2_r2"; "p2_r3"; "p3_r1"; "p3_r2";
       "p3_r3"; "p4_r1"; "p4_r2"; "p4_r3"; "p5_r1"; "p5_r2"; "p5_r3"]%string).
  { unfold all_keyframes. cbn [segments seq flat_map].
    rewrite !map_app. rewrite !(proj2 (segment_contents v w h sd _)).
    vm_compute. reflexivity. }
  split; [|split; [exact Hids|]].
  - unfold all_keyframes. cbn [segments seq flat_map].
    repeat (apply Forall_app; split); try apply (proj1 (segment_contents v w h sd _)).
    constructor.
  - rewrite Hids. apply (bool_decide_unpack _). vm_compute. exact I.
Qed.

Lemma keyframes_hold_their_capture_and_distinct_ids_witness :
  exists frames md r,
    processVideo sample_file nine_oh_five both_contexts (tiny_video 10)
    = (Resolved frames md, r) /\
    Forall (fun k => dataUrl k = jpeg (tiny_video 10) (timestamp k) /\
                     label k = None /\ aiDescription k = None /\
                     processedUrl k = None) frames /\
    map id frames
    = ["p1_r1"; "p1_r2"; "p1_r3"; "p2_r1"; "p2_r2"; "p2_r3"; "p3_r1"; "p3_r2";
       "p3_r3"; "p4_r1"; "p4_r2"; "p4_r3"; "p5_r1"; "p5_r2"; "p5_r3"]%string /\
    NoDup (map id frames).
Proof.
  destruct (tiny_video_resolves 10) as [r Hr].
  exists (all_keyframes (tiny_video 10) 4 4 (10 / inject_Z (Z.of_nat segments))),
         (metadata_of sample_file nine_oh_five), r.
  split; [exact Hr|].
  exact (keyframes_hold_their_capture_and_distinct_ids _ _ _ _ _ _ _ Hr).
Defined.


(** *** Metadata and the analysis canvas *)

Lemma pad2_two_digits n :
  n < 100 ->
  String.length (pad2 n) = 2 /\ all_chars is_digit (pad2 n) = true.
Proof.
  intros Hn.
  assert (Hall : forallb (fun n => (String.length (pad2 n) =? 2)
                                   && all_chars is_digit (pad2 n))
                         (seq 0 100) = true) by (vm_compute; reflexivity).
  pose proof (proj1 (forallb_forall _ _) Hall n) as H.
  rewrite andb_true_iff, Nat.eqb_eq in H. apply H. apply in_seq. lia.
Qed.

Lemma append_length (s t : string) :
  String.length (String.append s t) = String.length s + String.length t.
Proof.
  induction s as [|c s IH]; [reflexivity|].
  change (String.append (String c s) t) with (String c (String.append s t)).
  cbn [String.length]. rewrite IH. reflexivity.
Qed.

Lemma append_all_chars p (s t : string) :
  all_chars p (String.append s t) = all_chars p s && all_chars p t.
Proof.
  induction s as [|c s IH]; [reflexivity|].
  change (String.append (String c s) t) with (String c (String.append s t)).
  cbn [all_chars]. rewrite IH, andb_assoc. reflexivity.
Qed.

(** X12.  The metadata of a resolved run are the fingerprint of the file
    and the session time; for a clock within its ranges the session time
    consists of six decimal digits, two each for hours, minutes and
    seconds. *)
Theorem session_time_has_six_digits
  (file : File) (now : Clock) (dom : Canvases) (v : Video)
  (frames : list Keyframe) (md : ProcessingMetadata) (r : Run) :
  processVideo file now dom v = (Resolved frames md, r) ->
  valid_clock now ->
  videoId md = generateVideoId file /\
  sessionTime md
  = String.append (pad2 (hours now))
      (String.append (pad2 (minutes now)) (pad2 (seconds now))) /\
  String.length (sessionTime md) = 6 /\
  all_chars is_digit (sessionTime md) = true.
Proof.
  intros Hrun (Hh & Hm & Hs). apply run_resolved in Hrun.
  destruct Hrun as (d & vw & vh & _ & _ & -> & _).
  cbn [videoId sessionTime metadata_of].
  destruct (pad2_two_digits (hours now)) as [Lh Dh]; [lia|].
  destruct (pad2_two_digits (minutes now)) as [Lm Dm]; [lia|].
  destruct (pad2_two_digits (seconds now)) as [Ls Ds]; [lia|].
  repeat split.
  - rewrite !append_length, Lh, Lm, Ls. reflexivity.
  - rewrite !append_all_chars, Dh, Dm, Ds. reflexivity.
Qed.

Lemma session_time_has_six_digits_witness :
  exists frames md r,
    processVideo sample_file nine_oh_five both_contexts (tiny_video 10)
    = (Resolved frames md, r) /\
    valid_clock nine_oh_five /\
    videoId md = generateVideoId sample_file /\
    sessionTime md
    = String.append (pad2 (hours nine_oh_five))
        (String.append (pad2 (minutes nine_oh_five)) (pad2 (seconds nine_oh_five))) /\
    String.length (sessionTime md) = 6 /\
    all_chars is_digit (sessionTime md) = true.
Proof.
  destruct (tiny_video_resolves 10) as [r Hr].
  assert (Hc : valid_clock nine_oh_five) by (unfold valid_clock; cbn; lia).
  exists (all_keyframes (tiny_video 10) 4 4 (10 / inject_Z (Z.of_nat segments))),
         (metadata_of sample_file nine_oh_five), r.
  split; [exact Hr|]. split; [exact Hc|].
  exact (session_time_has_six_digits _ _ _ _ _ _ _ Hr Hc).
Defined.







(** Sizes on both sides of the limit. *)
Example analysis_sizes :
  analysis_size 1920 1080 = (640, 360) /\
  analysis_size 480 270 = (480, 270) /\
  analysis_size 1280 1 = (640, 0).
Proof. repeat split; vm_compute; reflexivity. Qed.


End PipelineMore.

(** ** More on the labelling service *)

Module LabelingMore.

Import Pipeline Labeling.

Lemma or_else_nonempty (field : option string) (fallback : string) :
  fallback <> EmptyString -> or_else field fallback <> EmptyString.
Proof.
  intros Hf. destruct field as [[|c s]|]; cbn; try exact Hf. discriminate.
Qed.

Lemma frame_label_nonempty index : frame_label index <> EmptyString.
Proof. unfold frame_label. cbn. discriminate. Qed.

(** X14.  Whatever the service answers, [analyzeFrames] returns as many
    keyframes as it was given, in the same order, each with the identifier,
    image, time, score, segment and rank of its input, and with a label
    that is present and not empty. *)
Theorem analysis_keeps_frames_and_labels_them
  (service : nat -> Keyframe -> Reply) (frames : list Keyframe) :
  length (analyzeFrames service frames) = length frames /\
  forall index frame,
    frames !! index = Some frame ->
    exists out,
      analyzeFrames service frames !! index = Some out /\
      id out = id frame /\ dataUrl out = dataUrl frame /\
      processedUrl out = processedUrl frame /\
      timestamp out = timestamp frame /\ score out = score frame /\
      partId out = partId frame /\ rankId out = rankId frame /\
      exists l, label out = Some l /\ l <> EmptyString.
Proof.
  split; [apply length_imap|].
  intros index frame Hf. exists (analyzeFrame service index frame).
  split.
  - unfold analyzeFrames. rewrite list_lookup_imap, Hf. reflexivity.
  - unfold analyzeFrame. destruct (service index frame) as [|l d]; cbn;
      repeat split; eexists; (split; [reflexivity|]).
    + apply frame_label_nonempty.
    + apply or_else_nonempty, frame_label_nonempty.
Qed.

(** X15.  When the request for a frame succeeds, a label and a description
    that are present and not empty are taken as they are; a missing or
    empty label becomes ["Frame n"], [n] the position counted from 1, and a
    missing or empty description becomes ["Jewelry showcase"]. *)
Theorem answered_request_uses_answer_or_default
  (service : nat -> Keyframe -> Reply) (frames : list Keyframe)
  (index : nat) (frame : Keyframe) (l d : option string) :
  frames !! index = Some frame ->
  service index frame = Parsed l d ->
  exists out,
    analyzeFrames service frames !! index = Some out /\
    (forall s, l = Some s -> s <> EmptyString -> label out = Some s) /\
    (l = None \/ l = Some EmptyString ->
     label out = Some (String.append "Frame " (pretty (index + 1)))) /\
    (forall s, d = Some s -> s <> EmptyString -> aiDescription out = Some s) /\
    (d = None \/ d = Some EmptyString ->
     aiDescription out = Some "Jewelry showcase"%string).
Proof.
  intros Hf Hs. exists (analyzeFrame service index frame). split.
  - unfold analyzeFrames. rewrite list_lookup_imap, Hf. reflexivity.
  - unfold analyzeFrame. rewrite Hs. cbn [label aiDescription].
    repeat split.
    + intros s -> Hne. destruct s; [contradiction|reflexivity].
    + intros [-> | ->]; reflexivity.
    + intros s -> Hne. destruct s; [contradiction|reflexivity].
    + intros [-> | ->]; reflexivity.
Qed.

Lemma answered_request_uses_answer_or_default_witness :
  [labelled_frame] !! 0 = Some labelled_frame /\
  answering_service 0 labelled_frame = Parsed (Some "Clarity Close-up"%string) None /\
  exists out,
    analyzeFrames answering_service [labelled_frame] !! 0 = Some out /\
    (forall s, Some "Clarity Close-up"%string = Some s -> s <> EmptyString ->
               label out = Some s) /\
    (Some "Clarity Close-up"%string = None \/
     Some "Clarity Close-up"%string = Some EmptyString ->
     label out = Some (String.append "Frame " (pretty (0 + 1)))) /\
    (forall s, @None string = Some s -> s <> EmptyString ->
               aiDescription out = Some s) /\
    (@None string = None \/ @None string = Some EmptyString ->
     aiDescription out = Some "Jewelry showcase"%string).
Proof.
  exact (conj eq_refl (conj eq_refl
           (answered_request_uses_answer_or_default answering_service
              [labelled_frame] 0 labelled_frame _ _ eq_refl eq_refl))).
Defined.

End LabelingMore.

(** ** The application state *)

Module AppFacts.

Import Fingerprint Pipeline PipelineFacts App.

(** *** [updateBatch] and [removeBatch] *)

(** X16.  [updateBatch] keeps the number of batches; it replaces every
    batch that has the identifier by its update and leaves every other
    batch as it is, so an identifier that no batch has changes nothing. *)
Theorem update_touches_only_its_batch
  (id0 : string) (updates : Updates) (bs : list ProductBatch) :
  length (updateBatch id0 updates bs) = length bs /\
  (forall i b, bs !! i = Some b -> id b <> id0 ->
     updateBatch id0 updates bs !! i = Some b) /\
  (forall i b, bs !! i = Some b -> id b = id0 ->
     updateBatch id0 updates bs !! i = Some (spread b updates)) /\
  ((forall b, In b bs -> id b <> id0) -> updateBatch id0 updates bs = bs).
Proof.
  unfold updateBatch. split; [apply length_map|]. split; [|split].
  - intros i b Hb Hne. rewrite list_lookup_fmap, Hb. cbn.
    apply String.eqb_neq in Hne. rewrite Hne. reflexivity.
  - intros i b Hb He. rewrite list_lookup_fmap, Hb. cbn.
    apply String.eqb_eq in He. rewrite He. reflexivity.
  - intros Hall. rewrite <- (map_id bs) at 2. apply map_ext_in.
    intros b Hb. specialize (Hall b Hb). apply String.eqb_neq in Hall.
    rewrite Hall. reflexivity.
Qed.

(** X17.  [removeBatch] keeps exactly the batches with another identifier,
    in their order; the active identifier is cleared when it is the removed
    one and kept otherwise; removing twice is removing once. *)
Theorem remove_drops_exactly_its_batch (id0 : string) (st : AppState) :
  (forall b, In b (batches (removeBatch id0 st))
             <-> In b (batches st) /\ id b <> id0) /\
  sublist (batches (removeBatch id0 st)) (batches st) /\
  (forall a, activeBatchId (removeBatch id0 st) = Some a
             <-> activeBatchId st = Some a /\ a <> id0) /\
  removeBatch id0 (removeBatch id0 st) = removeBatch id0 st.
Proof.
  split; [|split; [|split]].
  - intros b. cbn [removeBatch batches]. rewrite filter_In, negb_true_iff.
    rewrite String.eqb_neq. reflexivity.
  - cbn [removeBatch batches].
    induction (batches st) as [|b l IH]; cbn [List.filter]; [constructor|].
    destruct (negb _); [apply sublist_skip|apply sublist_cons]; exact IH.
  - intros a. cbn [removeBatch activeBatchId].
    destruct (activeBatchId st) as [a'|]; [|split; [discriminate|intros [H _]; discriminate]].
    destruct (String.eqb a' id0) eqn:E.
    + apply String.eqb_eq in E. subst. split; [discriminate|].
      intros [H Hne]. injection H as ->. contradiction.
    + apply String.eqb_neq in E. split.
      * intros H. injection H as ->. split; [reflexivity|exact E].
      * intros [H _]. exact H.
  - unfold removeBatch. cbn [batches activeBatchId]. f_equal.
    + induction (batches st) as [|b l IH]; cbn [List.filter]; [reflexivity|].
      destruct (negb (String.eqb (id b) id0)) eqn:E; cbn [List.filter].
      * rewrite E, IH. reflexivity.
      * exact IH.
    + destruct (activeBatchId st) as [a|]; [|reflexivity].
      destruct (String.eqb a id0) eqn:E; [reflexivity|]. rewrite E. reflexivity.
Qed.


(** *** [handleFileSelect] *)

(** X18.  The product key made from a file name is the part of the name
    before its first full stop: it contains no full stop, and the name is
    the key followed by nothing or by a full stop and the rest. *)
Theorem product_key_is_name_before_first_dot (name : list Z) :
  ~ In 46%Z (before_dot name) /\
  (name = before_dot name \/
   exists rest, name = before_dot name ++ 46%Z :: rest).
Proof.
  induction name as [|c name [IHn IHs]]; cbn [before_dot].
  - split; [intros []|left; reflexivity].
  - destruct (c =? 46)%Z eqn:E.
    + apply Z.eqb_eq in E. subst c. split; [intros []|].
      right. exists name. reflexivity.
    + apply Z.eqb_neq in E. split.
      * intros [H|H]; [congruence|contradiction].
      * destruct IHs as [H|[rest H]].
        -- left. cbn. congruence.
        -- right. exists rest. cbn. congruence.
Qed.

(** X19.  Selecting no file changes nothing.  Selecting files appends one
    batch for each, in the order of the files: queued, at progress 0,
    without frames or metadata, holding its file, named after it, with the
    product key taken from the name; the batches that were there stay, and
    so does an active identifier that is not empty. *)
Theorem file_selection_appends_queued_batches
  (ids : nat -> string) (files : list File) (st : AppState) :
  handleFileSelect ids [] st = st /\
  (files <> [] ->
   exists news,
     batches (handleFileSelect ids files st) = batches st ++ news /\
     length news = length files /\
     (forall k file, files !! k = Some file ->
        news !! k
        = Some {| id := ids k; fileName := name file;
                  productKey := before_dot (name file);
                  status := QUEUED; progress := 0; frames := [];
                  metadata := None; rawFile := Some file |}) /\
     (forall a, activeBatchId st = Some a -> a <> EmptyString ->
        activeBatchId (handleFileSelect ids files st) = Some a) /\
     (activeBatchId st = None ->
        activeBatchId (handleFileSelect ids files st) = Some (ids 0))).
Proof.
  split; [reflexivity|]. intros Hne.
  destruct files as [|file0 files']; [contradiction|].
  exists (imap (new_batch ids) (file0 :: files')).
  cbn [handleFileSelect batches activeBatchId].
  split; [reflexivity|]. split; [apply length_imap|]. split; [|split].
  - intros k file Hk. rewrite list_lookup_imap, Hk. reflexivity.
  - intros a -> Ha. destruct a; [contradiction|reflexivity].
  - intros ->. reflexivity.
Qed.


(** *** [startProcessing] *)

Lemma spread_id b u : set_id u = None -> id (spread b u) = id b.
Proof. intros H. cbn. rewrite H. reflexivity. Qed.

Lemma apply_reports_id ps : forall b, id (apply_reports ps b) = id b.
Proof.
  unfold apply_reports. induction ps as [|p ps IH]; intros b; cbn [fold_left];
    [reflexivity|].
  rewrite IH. reflexivity.
Qed.

Lemma settle_as_id env q b : id (settle_as env q b) = id b.
Proof.
  unfold settle_as. destruct (rawFile q) as [file|]; [|reflexivity].
  destruct (run_of env q file) as [[fs md|reason|] run];
    cbn [spread id or_keep with_result with_status set_id];
    rewrite apply_reports_id; reflexivity.
Qed.

Lemma update_on_id i u bs :
  updateBatch i u bs = on_id i (fun b => spread b u) bs.
Proof. reflexivity. Qed.

Lemma on_id_twice i f g bs :
  (forall b, id (f b) = id b) ->
  on_id i g (on_id i f bs) = on_id i (fun b => g (f b)) bs.
Proof.
  intros Hf. unfold on_id. rewrite map_map. apply map_ext. intros b.
  destruct (String.eqb (id b) i) eqn:E; [rewrite Hf|]; rewrite E; reflexivity.
Qed.

Lemma reports_fold i ps : forall f bs,
  (forall b, id (f b) = id b) ->
  fold_left (fun bs p => updateBatch i (with_progress p) bs) ps (on_id i f bs)
  = on_id i (fun b => apply_reports ps (f b)) bs.
Proof.
  induction ps as [|p ps IH]; intros f bs Hf; cbn [fold_left]; [reflexivity|].
  rewrite update_on_id, on_id_twice by exact Hf.
  rewrite IH; [reflexivity|]. intros b. rewrite spread_id by reflexivity. apply Hf.
Qed.

(** One turn of the loop, as a change of every batch with the identifier. *)
Lemma process_queue_step env q rest bs :
  process_queue env (q :: rest) bs
  = if stalls env q then (false, on_id (id q) (settle_as env q) bs)
    else process_queue env rest (on_id (id q) (settle_as env q) bs).
Proof.
  cbn [process_queue]. cbn zeta. unfold stalls, settle_as.
  rewrite (update_on_id (id q) (with_status PROCESSING)).
  destruct (rawFile q) as [file|].
  - fold (run_of env q file). destruct (run_of env q file) as [o run].
    rewrite reports_fold by (intros; reflexivity). cbn [fst].
    assert (Hid : forall b, id (apply_reports (reported run)
                                  (spread b (with_status PROCESSING))) = id b).
    { intros b. rewrite apply_reports_id. reflexivity. }
    destruct o as [fs md|reason|].
    + rewrite update_on_id, on_id_twice by exact Hid. reflexivity.
    + rewrite update_on_id, on_id_twice by exact Hid. reflexivity.
    + reflexivity.
  - rewrite update_on_id, on_id_twice by (intros; reflexivity). reflexivity.
Qed.

Lemma attempted_subset env queued q :
  In q (attempted env queued) -> In q queued.
Proof.
  induction queued as [|q0 rest IH]; cbn [attempted]; [tauto|].
  destruct (stalls env q0); cbn [In]; tauto.
Qed.

Lemma has_id_in ids b : has_id ids b = true <-> In (id b) ids.
Proof.
  unfold has_id. rewrite existsb_exists. split.
  - intros (i & Hi & E). apply String.eqb_eq in E. congruence.
  - intros H. exists (id b). split; [exact H|apply String.eqb_refl].
Qed.

(** The whole loop: every batch that carries the identifier of a queued
    batch the loop reaches is changed as that batch prescribes. *)
Lemma process_queue_spec env : forall queued bs,
  NoDup (map id queued) ->
  (forall q b, In q queued -> In b bs -> id b = id q -> b = q) ->
  process_queue env queued bs
  = (forallb (fun q => negb (stalls env q)) queued,
     map (fun b => if has_id (map id (attempted env queued)) b
                   then settle env b else b) bs).
Proof.
  induction queued as [|q rest IH]; intros bs Hnd Hsame.
  - cbn. rewrite map_id. reflexivity.
  - rewrite process_queue_step. cbn [map] in Hnd. apply NoDup_cons in Hnd as [Hq Hnd].
    assert (Hon : on_id (id q) (settle_as env q) bs
                  = map (fun b => if String.eqb (id b) (id q) then settle env b else b) bs).
    { apply map_ext_in. intros b Hb. destruct (String.eqb (id b) (id q)) eqn:E;
        [|reflexivity].
      apply String.eqb_eq in E. rewrite (Hsame q b (or_introl eq_refl) Hb E).
      reflexivity. }
    cbn [forallb attempted]. destruct (stalls env q) eqn:Est; cbn [negb andb].
    + f_equal. rewrite Hon. apply map_ext. intros b. cbn [map has_id existsb].
      rewrite orb_false_r. reflexivity.
    + rewrite IH; [|exact Hnd|].
      * f_equal. rewrite Hon, map_map. apply map_ext. intros b.
        cbn [map]. unfold has_id at 2. cbn [existsb].
        fold (has_id (map id (attempted env rest)) b).
        destruct (String.eqb (id b) (id q)) eqn:E; cbn [orb]; [|reflexivity].
        destruct (has_id (map id (attempted env rest)) (settle env b)) eqn:Eh;
          [|reflexivity].
        exfalso. apply has_id_in in Eh. unfold settle in Eh.
        rewrite settle_as_id in Eh. apply String.eqb_eq in E. rewrite E in Eh.
        apply Hq. apply list_elem_of_In. apply in_map_iff in Eh.
        destruct Eh as (q' & Hq' & Hin). apply in_map_iff. exists q'.
        split; [exact Hq'|]. eapply attempted_subset, Hin.
      * intros q' b' Hq' Hb' Hid. unfold on_id in Hb'. apply in_map_iff in Hb'.
        destruct Hb' as (b & <- & Hb).
        destruct (String.eqb (id b) (id q)) eqn:E.
        -- exfalso. rewrite settle_as_id in Hid. apply String.eqb_eq in E.
           apply Hq. apply list_elem_of_In. rewrite <- E, Hid.
           apply in_map. exact Hq'.
        -- apply (Hsame q' b); [right; exact Hq'|exact Hb|exact Hid].
Qed.

Lemma same_id_same_batch (bs : list ProductBatch) :
  NoDup (map id bs) ->
  forall a b, In a bs -> In b bs -> id a = id b -> a = b.
Proof.
  induction bs as [|x bs IH]; intros Hnd a b Ha Hb Hid; [contradiction|].
  cbn [map] in Hnd. apply NoDup_cons in Hnd as [Hx Hnd].
  destruct Ha as [->|Ha], Hb as [->|Hb]; [reflexivity| | |apply IH; assumption].
  - exfalso. apply Hx. rewrite Hid. apply list_elem_of_In, in_map, Hb.
  - exfalso. apply Hx. rewrite <- Hid. apply list_elem_of_In, in_map, Ha.
Qed.

Lemma NoDup_filter_ids (f : ProductBatch -> bool) (bs : list ProductBatch) :
  NoDup (map id bs) -> NoDup (map id (List.filter f bs)).
Proof.
  induction bs as [|x bs IH]; intros Hnd; cbn [List.filter map]; [constructor|].
  cbn [map] in Hnd. apply NoDup_cons in Hnd as [Hx Hnd].
  destruct (f x); [|apply IH, Hnd].
  cbn [map]. apply NoDup_cons. split; [|apply IH, Hnd].
  intros Hin. apply Hx. apply list_elem_of_In in Hin. apply list_elem_of_In.
  apply in_map_iff in Hin. destruct Hin as (y & Hy & Hin).
  apply filter_In in Hin. apply in_map_iff. exists y. tauto.
Qed.

(** [startProcessing] when the identifiers are all different. *)
Lemma startProcessing_spec env bs :
  NoDup (map id bs) ->
  startProcessing env bs
  = (forallb (fun q => negb (stalls env q))
             (List.filter (fun b => is_queued (status b)) bs),
     map (fun b => if has_id (map id (attempted env
                                        (List.filter (fun b => is_queued (status b)) bs))) b
                   then settle env b else b) bs).
Proof.
  intros Hnd. unfold startProcessing. apply process_queue_spec.
  - apply NoDup_filter_ids, Hnd.
  - intros q b Hq Hb Hid. apply filter_In in Hq.
    apply (same_id_same_batch bs Hnd); tauto.
Qed.

(** **** What the loop does to one batch *)

Lemma last_cons_default {A} (p : A) (ps : list A) (d : A) :
  List.last (p :: ps) d = List.last ps p.
Proof.
  revert p d. induction ps as [|q ps IH]; intros p d; [reflexivity|].
  change (List.last (p :: q :: ps) d) with (List.last (q :: ps) d).
  rewrite (IH q d), (IH q p). reflexivity.
Qed.

Lemma apply_reports_eq ps : forall b,
  apply_reports ps b
  = {| id := id b; fileName := fileName b; productKey := productKey b;
       status := status b; progress := List.last ps (progress b);
       frames := frames b; metadata := metadata b; rawFile := rawFile b |}.
Proof.
  unfold apply_reports. induction ps as [|p ps IH]; intros b.
  - destruct b; reflexivity.
  - cbn [fold_left]. rewrite IH, last_cons_default. reflexivity.
Qed.


Lemma settle_resolved env b file fs md run :
  rawFile b = Some file ->
  run_of env b file = (Resolved fs md, run) ->
  settle env b
  = {| id := id b; fileName := fileName b; productKey := productKey b;
       status := COMPLETED; progress := 100; frames := map relabel fs;
       metadata := Some md; rawFile := Some file |}.
Proof.
  intros Hf Hrun. unfold settle, settle_as. rewrite Hf, Hrun.
  rewrite apply_reports_eq. unfold run_of in Hrun.
  destruct (run_resolved _ _ _ _ _ _ _ Hrun) as (_ & _ & _ & _ & _ & _ & Hrep & _).
  rewrite Hrep, List.last_last. cbn. rewrite Hf. reflexivity.
Qed.



Lemma settle_pending env b file run :
  rawFile b = Some file ->
  run_of env b file = (Pending, run) ->
  settle env b
  = {| id := id b; fileName := fileName b; productKey := productKey b;
       status := PROCESSING; progress := List.last (reported run) (progress b);
       frames := frames b; metadata := metadata b; rawFile := Some file |}.
Proof.
  intros Hf Hrun. unfold settle, settle_as. rewrite Hf, Hrun.
  rewrite apply_reports_eq. cbn. rewrite Hf. reflexivity.
Qed.

Lemma settle_as_same_source env q b : same_source b (settle_as env q b).
Proof.
  unfold settle_as, same_source. destruct (rawFile q) as [file|].
  - destruct (run_of env q file) as [[fs md|reason|] run];
      rewrite apply_reports_eq; cbn; auto.
  - cbn. auto.
Qed.

Lemma on_id_lookup i f bs k b :
  bs !! k = Some b ->
  on_id i f bs !! k = Some (if String.eqb (id b) i then f b else b).
Proof. intros Hb. unfold on_id. rewrite list_lookup_fmap, Hb. reflexivity. Qed.

Lemma process_queue_same_source env : forall queued bs,
  length (snd (process_queue env queued bs)) = length bs /\
  forall k b, bs !! k = Some b ->
    exists b', snd (process_queue env queued bs) !! k = Some b' /\
               same_source b b'.
Proof.
  assert (Hstep : forall q bs,
            length (on_id (id q) (settle_as env q) bs) = length bs /\
            forall k b, bs !! k = Some b ->
              exists b', on_id (id q) (settle_as env q) bs !! k = Some b' /\
                         same_source b b').
  { intros q bs. split; [apply length_map|]. intros k b Hb.
    rewrite (on_id_lookup _ _ _ _ _ Hb).
    destruct (String.eqb (id b) (id q)); eexists; (split; [reflexivity|]).
    - apply settle_as_same_source.
    - unfold same_source. auto. }
  induction queued as [|q rest IH]; intros bs.
  - cbn. split; [reflexivity|]. intros k b Hb. exists b.
    unfold same_source. auto.
  - rewrite process_queue_step. destruct (Hstep q bs) as [Hlen Hk].
    destruct (stalls env q); cbn [snd]; [split; assumption|].
    destruct (IH (on_id (id q) (settle_as env q) bs)) as [Hlen' Hk'].
    split; [congruence|]. intros k b Hb.
    destruct (Hk k b Hb) as (b1 & Hb1 & S1).
    destruct (Hk' k b1 Hb1) as (b2 & Hb2 & S2).
    exists b2. split; [exact Hb2|].
    unfold same_source in *. intuition congruence.
Qed.

Lemma process_queue_other env : forall queued bs k b,
  bs !! k = Some b ->
  (forall q, In q queued -> id q <> id b) ->
  snd (process_queue env queued bs) !! k = Some b.
Proof.
  induction queued as [|q rest IH]; intros bs k b Hb Hq; [exact Hb|].
  rewrite process_queue_step.
  assert (Hon : on_id (id q) (settle_as env q) bs !! k = Some b).
  { rewrite (on_id_lookup _ _ _ _ _ Hb).
    destruct (String.eqb (id b) (id q)) eqn:E; [|reflexivity].
    apply String.eqb_eq in E. exfalso. apply (Hq q (or_introl eq_refl)).
    congruence. }
  destruct (stalls env q); [exact Hon|].
  apply IH; [exact Hon|]. intros q' Hq'. apply Hq. right. exact Hq'.
Qed.

Lemma process_queue_flag env : forall queued bs,
  fst (process_queue env queued bs)
  = forallb (fun q => negb (stalls env q)) queued.
Proof.
  induction queued as [|q rest IH]; intros bs; [reflexivity|].
  rewrite process_queue_step. cbn [forallb].
  destruct (stalls env q); [reflexivity|]. apply IH.
Qed.

Lemma attempted_all env queued :
  forallb (fun q => negb (stalls env q)) queued = true ->
  attempted env queued = queued.
Proof.
  induction queued as [|q rest IH]; cbn [forallb attempted]; [reflexivity|].
  intros H. apply andb_true_iff in H as [Hq Hrest].
  apply negb_true_iff in Hq. rewrite Hq, IH by exact Hrest. reflexivity.
Qed.

Lemma attempted_until env pre q post :
  forallb (fun q => negb (stalls env q)) pre = true ->
  stalls env q = true ->
  attempted env (pre ++ q :: post) = pre ++ [q].
Proof.
  intros Hpre Hq. induction pre as [|p pre IH]; cbn [app attempted forallb] in *.
  - rewrite Hq. reflexivity.
  - apply andb_true_iff in Hpre as [Hp Hpre]. apply negb_true_iff in Hp.
    rewrite Hp, IH by exact Hpre. reflexivity.
Qed.

Lemma stalls_iff env q :
  stalls env q = true <->
  exists file run, rawFile q = Some file /\ run_of env q file = (Pending, run).
Proof.
  unfold stalls. destruct (rawFile q) as [file|].
  - destruct (run_of env q file) as [[fs md|reason|] run] eqn:E; cbn [fst].
    + split; [discriminate|]. intros (f & r & Hf & Hr). injection Hf as <-.
      rewrite E in Hr. discriminate.
    + split; [discriminate|]. intros (f & r & Hf & Hr). injection Hf as <-.
      rewrite E in Hr. discriminate.
    + split; [|reflexivity]. intros _. exists file, run. split; [reflexivity|exact E].
  - split; [discriminate|]. intros (f & r & Hf & _). discriminate.
Qed.

Lemma none_stalls env (queued : list ProductBatch) :
  (forall q file, In q queued -> rawFile q = Some file ->
     fst (run_of env q file) <> Pending) ->
  forallb (fun q => negb (stalls env q)) queued = true.
Proof.
  intros H. apply forallb_forall. intros q Hq. apply negb_true_iff.
  destruct (stalls env q) eqn:E; [|reflexivity].
  apply stalls_iff in E as (file & run & Hf & Hr).
  exfalso. apply (H q file Hq Hf). rewrite Hr. reflexivity.
Qed.

Lemma queued_in bs b :
  In b (List.filter (fun b => is_queued (status b)) bs)
  <-> In b bs /\ status b = QUEUED.
Proof.
  rewrite filter_In. split; intros [H1 H2]; (split; [exact H1|]).
  - destruct (status b); try discriminate. reflexivity.
  - rewrite H2. reflexivity.
Qed.

(** With identifiers all different and no pending run, every queued batch
    is settled and every other batch is as before. *)
Lemma startProcessing_lookup env bs k b :
  NoDup (map id bs) ->
  bs !! k = Some b ->
  snd (startProcessing env bs) !! k
  = Some (if has_id (map id (attempted env
                     (List.filter (fun b => is_queued (status b)) bs))) b
          then settle env b else b).
Proof.
  intros Hnd Hb. rewrite (startProcessing_spec env bs Hnd). cbn [snd].
  rewrite list_lookup_fmap, Hb. reflexivity.
Qed.

Lemma has_id_of_member (l : list ProductBatch) b :
  In b l -> has_id (map id l) b = true.
Proof. intros H. apply has_id_in. apply in_map. exact H. Qed.

(** X20.  [startProcessing] leaves a batch as it is when no queued batch
    has its identifier. *)
Theorem processing_leaves_other_batches
  (env : ProductBatch -> Env) (bs : list ProductBatch)
  (k : nat) (b : ProductBatch) :
  bs !! k = Some b ->
  (forall q, In q bs -> status q = QUEUED -> id q <> id b) ->
  snd (startProcessing env bs) !! k = Some b.
Proof.
  intros Hb Hq. unfold startProcessing. apply process_queue_other; [exact Hb|].
  intros q Hin. apply queued_in in Hin as [Hin Hs]. apply Hq; assumption.
Qed.

Lemma processing_leaves_other_batches_witness :
  snd (startProcessing still_env sample_batches) !! 0
  = Some {| id := "done"; fileName := code_units "old.mp4";
            productKey := code_units "old"; status := COMPLETED;
            progress := 100; frames := []; metadata := None;
            rawFile := Some sample_file |}.
Proof.
  apply (processing_leaves_other_batches still_env sample_batches 0).
  - reflexivity.
  - intros q [<-|[<-|[<-|[]]]] Hs; cbn; discriminate.
Defined.

(** X21.  [startProcessing] keeps the number and the order of the batches,
    and of every batch the identifier, the file name, the product key and
    the file. *)
Theorem processing_keeps_every_batch_and_its_source
  (env : ProductBatch -> Env) (bs : list ProductBatch) :
  length (snd (startProcessing env bs)) = length bs /\
  forall k b, bs !! k = Some b ->
    exists b', snd (startProcessing env bs) !! k = Some b' /\
               id b' = id b /\ fileName b' = fileName b /\
               productKey b' = productKey b /\ rawFile b' = rawFile b.
Proof. apply process_queue_same_source. Qed.

(** X22.  When the identifiers are all different and no run of a queued
    batch stays pending, the loop runs to its end, and a queued batch whose
    run resolves ends completed, at progress 100, with the 15 keyframes of
    the run relabelled and the metadata of the run. *)
Theorem queued_batch_with_resolved_run_completes
  (env : ProductBatch -> Env) (bs : list ProductBatch)
  (k : nat) (b : ProductBatch) (file : File)
  (fs : list Keyframe) (md : ProcessingMetadata) (run : Run) :
  NoDup (map id bs) ->
  (forall q f, In q bs -> status q = QUEUED -> rawFile q = Some f ->
     fst (processVideo f (clock (env q)) (canvases (env q)) (video (env q)))
     <> Pending) ->
  bs !! k = Some b -> status b = QUEUED -> rawFile b = Some file ->
  processVideo file (clock (env b)) (canvases (env b)) (video (env b))
  = (Resolved fs md, run) ->
  fst (startProcessing env bs) = true /\
  snd (startProcessing env bs) !! k
  = Some {| id := id b; fileName := fileName b; productKey := productKey b;
            status := COMPLETED; progress := 100; frames := map relabel fs;
            metadata := Some md; rawFile := Some file |} /\
  length fs = 15.
Proof.
  intros Hnd Hnp Hb Hs Hf Hrun.
  assert (Hall : forallb (fun q => negb (stalls env q))
                   (List.filter (fun b => is_queued (status b)) bs) = true).
  { apply none_stalls. intros q f Hq Hqf. apply queued_in in Hq as [Hq Hqs].
    apply (Hnp q f Hq Hqs Hqf). }
  split; [|split].
  - unfold startProcessing. rewrite process_queue_flag. exact Hall.
  - rewrite (startProcessing_lookup env bs k b Hnd Hb).
    rewrite (attempted_all _ _ Hall), has_id_of_member.
    + rewrite (settle_resolved env b file fs md run Hf Hrun). reflexivity.
    + apply queued_in. split; [|exact Hs].
      apply list_elem_of_In, list_elem_of_lookup. exists k. exact Hb.
  - destruct (run_resolved _ _ _ _ _ _ _ Hrun) as (d & vw & vh & _ & -> & _).
    apply all_keyframes_length.
Qed.

Lemma still_video_resolves :
  exists r,
    processVideo sample_file nine_oh_five both_contexts still_video
    = (Resolved (all_keyframes still_video 3 3 (10 / inject_Z (Z.of_nat segments)))
                (metadata_of sample_file nine_oh_five), r).
Proof.
  apply (run_resolves sample_file nine_oh_five both_contexts still_video 10 3 3
           eq_refl eq_refl eq_refl).
  change (analysis_size 3 3) with (3, 3). cbn [fst snd].
  apply segments_complete; [discriminate|discriminate|].
  intros s i. reflexivity.
Qed.

Lemma sample_batches_distinct : NoDup (map id sample_batches).
Proof.
  cbn. repeat (apply NoDup_cons_2 || apply NoDup_nil_2);
    rewrite ?list_elem_of_In; cbn; intuition discriminate.
Qed.

Lemma sample_batches_none_pending :
  forall q f, In q sample_batches -> status q = QUEUED -> rawFile q = Some f ->
    fst (processVideo f (clock (still_env q)) (canvases (still_env q))
           (video (still_env q))) <> Pending.
Proof.
  intros q f Hq Hs Hf. destruct Hq as [<-|[<-|[<-|[]]]].
  - discriminate Hs.
  - injection Hf as <-. destruct still_video_resolves as [r Hr].
    cbn [still_env clock canvases video]. rewrite Hr.
    cbn [fst]. intros H. discriminate H.
  - discriminate Hf.
Qed.

Lemma queued_batch_with_resolved_run_completes_witness :
  fst (startProcessing still_env sample_batches) = true /\
  snd (startProcessing still_env sample_batches) !! 1
  = Some {| id := "first"; fileName := code_units "ring.mp4";
            productKey := code_units "ring"; status := COMPLETED;
            progress := 100;
            frames := map relabel
                        (all_keyframes still_video 3 3
                           (10 / inject_Z (Z.of_nat segments)));
            metadata := Some (metadata_of sample_file nine_oh_five);
            rawFile := Some sample_file |} /\
  length (all_keyframes still_video 3 3 (10 / inject_Z (Z.of_nat segments))) = 15.
Proof.
  destruct still_video_resolves as [r Hr].
  apply (queued_batch_with_resolved_run_completes still_env sample_batches 1
           (queued_batch "first" (Some sample_file)) sample_file _ _ r
           sample_batches_distinct sample_batches_none_pending
           eq_refl eq_refl eq_refl Hr).
Defined.



(** X24.  A run that stays pending stops the loop: when the identifiers are
    all different and the queued batches are [pre], then [q], then [post],
    with no pending run in [pre] and a pending run for [q], the loop does
    not run to its end, [q] stays in processing at the progress last
    reported, and the batches of [post] stay queued as they are. *)
Theorem pending_run_stalls_the_queue
  (env : ProductBatch -> Env) (bs pre : list ProductBatch)
  (q : ProductBatch) (post : list ProductBatch) (file : File) (run : Run) :
  NoDup (map id bs) ->
  List.filter (fun b => is_queued (status b)) bs = pre ++ q :: post ->
  (forall p f, In p pre -> rawFile p = Some f ->
     fst (processVideo f (clock (env p)) (canvases (env p)) (video (env p)))
     <> Pending) ->
  rawFile q = Some file ->
  processVideo file (clock (env q)) (canvases (env q)) (video (env q))
  = (Pending, run) ->
  fst (startProcessing env bs) = false /\
  (forall k, bs !! k = Some q ->
     snd (startProcessing env bs) !! k
     = Some {| id := id q; fileName := fileName q; productKey := productKey q;
               status := PROCESSING;
               progress := List.last (reported run) (progress q);
               frames := frames q; metadata := metadata q;
               rawFile := Some file |}) /\
  (forall k b, bs !! k = Some b -> In b post ->
     snd (startProcessing env bs) !! k = Some b).
Proof.
  intros Hnd Hsplit Hpre Hf Hrun.
  assert (Hp : forallb (fun q => negb (stalls env q)) pre = true)
    by (apply none_stalls; exact Hpre).
  assert (Hq : stalls env q = true).
  { apply stalls_iff. exists file, run. split; [exact Hf|exact Hrun]. }
  assert (Hatt : attempted env (List.filter (fun b => is_queued (status b)) bs)
                 = pre ++ [q]).
  { rewrite Hsplit. apply attempted_until; assumption. }
  assert (Hids : NoDup (map id (pre ++ [q]) ++ map id post)).
  { rewrite <- map_app, <- app_assoc. cbn [app]. rewrite <- Hsplit.
    apply NoDup_filter_ids, Hnd. }
  split; [|split].
  - unfold startProcessing. rewrite process_queue_flag, Hsplit, forallb_app.
    cbn [forallb]. rewrite Hq, Hp. reflexivity.
  - intros k Hk. rewrite (startProcessing_lookup env bs k q Hnd Hk), Hatt.
    rewrite has_id_of_member by (apply in_or_app; right; left; reflexivity).
    apply f_equal. apply (settle_pending env q file run Hf Hrun).
  - intros k b Hk Hb. rewrite (startProcessing_lookup env bs k b Hnd Hk), Hatt.
    destruct (has_id (map id (pre ++ [q])) b) eqn:E; [|reflexivity].
    exfalso. apply has_id_in in E. apply NoDup_app in Hids as (_ & Hdis & _).
    apply (Hdis (id b)); apply list_elem_of_In; [exact E|apply in_map, Hb].
Qed.

Lemma pending_run_stalls_the_queue_witness :
  fst (startProcessing frozen_env frozen_batches) = false /\
  (forall k, frozen_batches !! k = Some (queued_batch "first" (Some sample_file)) ->
     snd (startProcessing frozen_env frozen_batches) !! k
     = Some {| id := "first"; fileName := code_units "ring.mp4";
               productKey := code_units "ring"; status := PROCESSING;
               progress := 0; frames := []; metadata := None;
               rawFile := Some sample_file |}) /\
  (forall k b, frozen_batches !! k = Some b ->
     In b [queued_batch "second" (Some sample_file)] ->
     snd (startProcessing frozen_env frozen_batches) !! k = Some b).
Proof.
  apply (pending_run_stalls_the_queue frozen_env frozen_batches []
           (queued_batch "first" (Some sample_file))
           [queued_batch "second" (Some sample_file)] sample_file
           {| reported := [0%Z]; objectUrlLive := true; currentTime := 0 # 600 |}).
  - cbn. repeat (apply NoDup_cons_2 || apply NoDup_nil_2);
      rewrite ?list_elem_of_In; cbn; intuition discriminate.
  - reflexivity.
  - intros p f [].
  - reflexivity.
  - vm_compute. reflexivity.
Defined.

Lemma settle_status env b :
  stalls env b = false ->
  status (settle env b) = COMPLETED \/ status (settle env b) = ERROR.
Proof.
  unfold stalls, settle, settle_as. destruct (rawFile b) as [file|].
  - destruct (run_of env b file) as [[fs md|reason|] run]; cbn [fst].
    + intros _. left. reflexivity.
    + intros _. right. reflexivity.
    + discriminate.
  - intros _. right. reflexivity.
Qed.

(** X25.  When the identifiers are all different and the loop has run to
    its end, every batch that was queued is completed or in error, no batch
    is queued any more, and starting the processing again changes
    nothing. *)
Theorem finished_queue_leaves_nothing_queued
  (env : ProductBatch -> Env) (bs : list ProductBatch) :
  NoDup (map id bs) ->
  fst (startProcessing env bs) = true ->
  (forall k b b', bs !! k = Some b -> status b = QUEUED ->
     snd (startProcessing env bs) !! k = Some b' ->
     status b' = COMPLETED \/ status b' = ERROR) /\
  (forall b', In b' (snd (startProcessing env bs)) -> status b' <> QUEUED) /\
  (forall env', startProcessing env' (snd (startProcessing env bs))
                = (true, snd (startProcessing env bs))).
Proof.
  intros Hnd Hflag.
  assert (Hall : forallb (fun q => negb (stalls env q))
                   (List.filter (fun b => is_queued (status b)) bs) = true).
  { unfold startProcessing in Hflag. rewrite process_queue_flag in Hflag.
    exact Hflag. }
  assert (Hk : forall k b, bs !! k = Some b ->
            snd (startProcessing env bs) !! k
            = Some (if is_queued (status b) then settle env b else b)).
  { intros k b Hb. rewrite (startProcessing_lookup env bs k b Hnd Hb).
    rewrite (attempted_all _ _ Hall). f_equal.
    destruct (is_queued (status b)) eqn:E.
    - rewrite has_id_of_member; [reflexivity|].
      apply filter_In. split; [|exact E].
      apply list_elem_of_In, list_elem_of_lookup. exists k. exact Hb.
    - destruct (has_id _ b) eqn:Eh; [|reflexivity].
      apply has_id_in, in_map_iff in Eh. destruct Eh as (q & Hid & Hq).
      apply filter_In in Hq as [Hq Hqs].
      assert (Hbin : In b bs)
        by (apply list_elem_of_In, list_elem_of_lookup; exists k; exact Hb).
      rewrite (same_id_same_batch bs Hnd q b Hq Hbin Hid) in Hqs. congruence. }
  assert (Hsettled : forall b, In b bs -> is_queued (status b) = true ->
            status (settle env b) = COMPLETED \/ status (settle env b) = ERROR).
  { intros b Hb Hq. apply settle_status.
    apply negb_true_iff. apply (proj1 (forallb_forall _ _) Hall).
    apply filter_In. split; assumption. }
  assert (Hnone : forall b', In b' (snd (startProcessing env bs)) ->
            status b' <> QUEUED).
  { intros b' Hb'. apply list_elem_of_In, list_elem_of_lookup in Hb'.
    destruct Hb' as [k Hb'].
    destruct (bs !! k) as [b|] eqn:Hb.
    - rewrite (Hk k b Hb) in Hb'. injection Hb' as <-.
      assert (Hbin : In b bs)
        by (apply list_elem_of_In, list_elem_of_lookup; exists k; exact Hb).
      destruct (is_queued (status b)) eqn:E.
      + destruct (Hsettled b Hbin E) as [-> | ->]; discriminate.
      + intros Hs. rewrite Hs in E. discriminate.
    - apply lookup_ge_None in Hb. apply lookup_lt_Some in Hb'.
      unfold startProcessing in Hb'.
      rewrite (proj1 (process_queue_same_source env _ bs)) in Hb'. lia. }
  split; [|split; [exact Hnone|]].
  - intros k b b' Hb Hs Hb'. rewrite (Hk k b Hb), Hs in Hb'. cbn in Hb'.
    injection Hb' as <-. apply Hsettled; [|rewrite Hs; reflexivity].
    apply list_elem_of_In, list_elem_of_lookup. exists k. exact Hb.
  - intros env'.
    assert (Hempty : forall l : list ProductBatch,
              (forall b', In b' l -> status b' <> QUEUED) ->
              List.filter (fun b => is_queued (status b)) l = []).
    { induction l as [|x l IH]; intros Hl; [reflexivity|].
      cbn [List.filter]. destruct (is_queued (status x)) eqn:E.
      - exfalso. apply (Hl x (or_introl eq_refl)).
        destruct (status x); try discriminate E. reflexivity.
      - apply IH. intros b' Hb'. apply Hl. right. exact Hb'. }
    unfold startProcessing at 1. rewrite (Hempty _ Hnone). reflexivity.
Qed.

Lemma finished_queue_leaves_nothing_queued_witness :
  (forall k b b', sample_batches !! k = Some b -> status b = QUEUED ->
     snd (startProcessing still_env sample_batches) !! k = Some b' ->
     status b' = COMPLETED \/ status b' = ERROR) /\
  (forall b', In b' (snd (startProcessing still_env sample_batches)) ->
     status b' <> QUEUED) /\
  (forall env', startProcessing env' (snd (startProcessing still_env sample_batches))
                = (true, snd (startProcessing still_env sample_batches))).
Proof.
  apply (finished_queue_leaves_nothing_queued still_env sample_batches
           sample_batches_distinct).
  vm_compute. reflexivity.
Defined.

(** *** [downloadZip] *)

Lemma append_inj_l (p a b : string) :
  String.append p a = String.append p b -> a = b.
Proof.
  induction p as [|c p IH]; cbn; [auto|]. intros H. injection H as H. auto.
Qed.

Lemma relabel_ranks (fs : list Keyframe) :
  map (fun k => (partId k, rankId k)) (map relabel fs)
  = map (fun k => (partId k, rankId k)) fs.
Proof. rewrite map_map. reflexivity. Qed.

(** The names of the files depend on segment and rank only. *)
Lemma top_names md (l : list Keyframe) :
  map (zip_file_name md) (List.filter (fun f => rankId f =? 1) l)
  = map (fun sj => String.append "JS_"
           (String.append (field_text md videoId)
              (String.append "_"
                 (String.append (field_text md sessionTime)
                    (String.append "_P"
                       (String.append (pretty (fst sj))
                          (String.append "_R"
                             (String.append (pretty (snd sj)) ".jpg"))))))))
        (List.filter (fun sj => snd sj =? 1)
           (map (fun k => (partId k, rankId k)) l)).
Proof.
  induction l as [|k l IH]; [reflexivity|].
  cbn [map List.filter snd]. destruct (rankId k =? 1); cbn [map]; rewrite IH;
    reflexivity.
Qed.

(** X26.  The archive of a batch that holds the relabelled keyframes and
    the metadata of a resolved run: the folder is named by the product key,
    and there is one file for each of the five segments, in their order,
    for the frame of rank 1, named
    [JS_<videoId>_<sessionTime>_P<segment>_R1.jpg]; the five names
    differ. *)
Theorem archive_holds_best_frame_of_each_segment
  (file : File) (now : Clock) (dom : Canvases) (v : Video)
  (fs : list Keyframe) (md : ProcessingMetadata) (run : Run)
  (batch : ProductBatch) :
  processVideo file now dom v = (Resolved fs md, run) ->
  status batch = COMPLETED ->
  frames batch = map relabel fs ->
  metadata batch = Some md ->
  exists archive,
    downloadZip batch = Some archive /\
    folder archive = productKey batch /\
    download archive = productKey batch ++ zip_suffix /\
    map fst (entries archive)
    = map (fun s => String.append "JS_"
             (String.append (videoId md)
                (String.append "_"
                   (String.append (sessionTime md)
                      (String.append "_P"
                         (String.append (pretty s) "_R1.jpg"))))))
          (seq 1 5) /\
    NoDup (map fst (entries archive)).
Proof.
  intros Hrun Hs Hfs Hmd. unfold downloadZip. rewrite Hs. cbn [is_completed].
  eexists. split; [reflexivity|]. cbn [folder download entries].
  split; [reflexivity|]. split; [reflexivity|].
  assert (Hnames :
    map fst (map (fun frame => (zip_file_name (metadata batch) frame,
                                after_first_comma (dataUrl frame)))
               (List.filter (fun f => rankId f =? 1) (frames batch)))
    = map (fun tail => String.append "JS_"
             (String.append (videoId md)
                (String.append "_"
                   (String.append (sessionTime md) (String.append "_P" tail)))))
          ["1_R1.jpg"; "2_R1.jpg"; "3_R1.jpg"; "4_R1.jpg"; "5_R1.jpg"]%string).
  { rewrite map_map. cbn [fst]. rewrite top_names, Hfs, relabel_ranks, Hmd.
    destruct (run_resolved _ _ _ _ _ _ _ Hrun) as (d & vw & vh & _ & -> & _).
    rewrite all_keyframes_ranks. cbn [field_text].
    generalize (videoId md) (sessionTime md). intros vid st.
    vm_compute. reflexivity. }
  split.
  - rewrite Hnames. generalize (videoId md) (sessionTime md). intros vid st.
    vm_compute. reflexivity.
  - rewrite Hnames. apply NoDup_fmap_2_strong.
    + intros a b _ _ H. do 5 apply append_inj_l in H. exact H.
    + repeat (apply NoDup_cons_2 || apply NoDup_nil_2);
        rewrite ?list_elem_of_In; cbn; intuition discriminate.
Qed.

Lemma archive_holds_best_frame_of_each_segment_witness :
  exists archive,
    downloadZip
      {| id := "first"; fileName := code_units "ring.mp4";
         productKey := code_units "ring"; status := COMPLETED;
         progress := 100;
         frames := map relabel
                     (all_keyframes still_video 3 3
                        (10 / inject_Z (Z.of_nat segments)));
         metadata := Some (metadata_of sample_file nine_oh_five);
         rawFile := Some sample_file |} = Some archive /\
    folder archive = code_units "ring" /\
    download archive = code_units "ring" ++ zip_suffix /\
    map fst (entries archive)
    = ["JS_3A19_090530_P1_R1.jpg"; "JS_3A19_090530_P2_R1.jpg";
       "JS_3A19_090530_P3_R1.jpg"; "JS_3A19_090530_P4_R1.jpg";
       "JS_3A19_090530_P5_R1.jpg"]%string /\
    NoDup (map fst (entries archive)).
Proof.
  destruct still_video_resolves as [r Hr].
  apply (archive_holds_best_frame_of_each_segment sample_file nine_oh_five
           both_contexts still_video _ _ r
           {| id := "first"; fileName := code_units "ring.mp4";
              productKey := code_units "ring"; status := COMPLETED;
              progress := 100;
              frames := map relabel
                          (all_keyframes still_video 3 3
                             (10 / inject_Z (Z.of_nat segments)));
              metadata := Some (metadata_of sample_file nine_oh_five);
              rawFile := Some sample_file |}
           Hr eq_refl eq_refl eq_refl).
Defined.

End AppFacts.
